(** * fq: the H.264 access-unit splitter and the query-language value bridge

    A shallow embedding of
    - [format/mpeg/avc_au.go]  (package [mpeg], format [avc_au]) and
    - the value bridge of package [interp] ([_decode], [makeDecodeValue],
      [decodeValueBase], [decodeValue], [ArrayDecodeValue],
      [StructDecodeValue]),
    together with the part of the decoder API ([pkg/decode]) those two
    files call.  Go's [interface{}] is a sum of the dynamic types that
    occur; pointers are addresses into an explicit heap; [int] and [int64]
    are [Z] with the wrap-around written out; a [panic] is a result of
    its own, distinct from an [error] value that is returned. *)

From Stdlib Require Import ZArith Ascii String List Bool Lia.
From stdpp Require Import base option list gmap strings.
Import ListNotations.

#[local] Set Warnings "-register-all".

Local Open Scope string_scope.
Local Open Scope Z_scope.

(** ** Go integers *)

(** Two's-complement reduction to 64 bits: what Go does on [int64]
    (and on [int], 64 bits wide on the platforms fq targets) overflow. *)
Definition wrap64 (z : Z) : Z := (z + 2 ^ 63) mod 2 ^ 64 - 2 ^ 63.

Definition is_int64 (z : Z) : Prop := - 2 ^ 63 <= z < 2 ^ 63.

(** ** Package decode: ranges, values, formats, and the decoder [D] *)

Module decode.

(** [ranges.Range]: two [int64] fields. *)
Record Range : Type := mkRange { Start : Z; Len : Z }.

(** Modelled from the spec: [Range.Stop] (package [ranges] is not among the
    sources); section 3.1 derives [stop = start + length].  The fields are
    [int64], so the sum is Go's wrapping addition. *)
Definition Stop (r : Range) : Z := wrap64 (Start r + Len r).

(** A bit range of a bit buffer: non-negative offsets whose end is still
    an [int64] position (spec 3.1). *)
Definition valid_range (r : Range) : Prop :=
  0 <= Start r /\ 0 <= Len r /\ Start r + Len r < 2 ^ 63.

(** [*bitio.Buffer]: the bits it holds, most significant bit first. *)
Definition Buffer : Type := list bool.

(** The dynamic types a scalar's [interface{}] value can have: the cases
    of the type switch in [makeDecodeValue].  Plain JSON-like data (the
    elements of [[]interface{}] and [map[string]interface{}]) is [plain]. *)
Inductive plain : Type :=
| PNull
| PBool (b : bool)
| PNumber (n : Z)
| PString (s : string)
| PArray (vs : list plain)
| PObject (kvs : list (string * plain)).

Inductive GoValue : Type :=
| GoBuffer (bb : Buffer)                    (* *bitio.Buffer *)
| GoBool (b : bool)
| GoInt (n : Z)
| GoInt64 (n : Z)
| GoUint64 (n : Z)
| GoFloat64 (ieee : Z)                      (* the 64 bits of the double *)
| GoString (s : string)
| GoBytes (bs : list Z)                     (* []byte *)
| GoSlice (vs : list plain)                 (* []interface{} *)
| GoMap (kvs : list (string * plain))       (* map[string]interface{} *)
| GoNil.

(** [decode.Scalar] (spec 3.2). *)
Record Scalar : Type := mkScalar {
  Actual : GoValue;
  Sym : GoValue;
  SDescription : string;
  Unknown : bool
}.

(** Decode errors (spec 7.1). *)
Record FormatError : Type := mkFormatError {
  FEMessage : string;
  FEPos : Z;
  FEFormat : string
}.

Inductive DecodeError : Type :=
| ErrFormat (fe : FormatError)
| ErrFormats (Errs : list FormatError)
| ErrRange (pos : Z)
| ErrNameCollision (name : string).

(** The decoded tree as the decoder builds it (spec 3.2): a compound
    carries its children, a scalar its value.  The format back-reference
    is kept by name. *)
Inductive Tree : Type :=
| Leaf (name : string) (range : Range) (s : Scalar)
| Node (name : string) (range : Range) (is_array : bool)
       (children : list Tree) (err : option DecodeError)
       (format : option string).

Definition tree_name (t : Tree) : string :=
  match t with Leaf n _ _ => n | Node n _ _ _ _ _ => n end.

Definition tree_range (t : Tree) : Range :=
  match t with Leaf _ r _ => r | Node _ r _ _ _ _ => r end.

(** The decoder state (spec 4.1): the root bit buffer, the current bit
    position, the end of the innermost length scope, and the compound
    being populated (its kind, its children so far, its error). *)
Record D : Type := mkD {
  bits : Buffer;
  pos : Z;
  scope_end : Z;
  in_array : bool;
  fields : list Tree;
  cur_err : option DecodeError
}.

(** A decode step either completes with a value and a new state, or
    aborts the current attempt ([Fatal], spec 4.1.5), or the model's loop
    budget ran out. *)
Inductive outcome (A : Type) : Type :=
| Done (a : A) (d : D)
| Aborted (e : DecodeError)
| OutOfFuel.
Arguments Done {A} a d.
Arguments Aborted {A} e.
Arguments OutOfFuel {A}.

Definition M (A : Type) : Type := D -> outcome A.

Definition ret {A} (a : A) : M A := fun d => Done a d.

Definition bind {A B} (m : M A) (k : A -> M B) : M B :=
  fun d => match m d with
           | Done a d' => k a d'
           | Aborted e => Aborted e
           | OutOfFuel => OutOfFuel
           end.

Declare Scope decode_scope.
Delimit Scope decode_scope with decode.
Notation "x <- m ;; k" := (bind m (fun x => k))
  (at level 100, m at next level, right associativity) : decode_scope.
Notation "m ;; k" := (bind m (fun _ => k))
  (at level 100, right associativity) : decode_scope.
Local Open Scope decode_scope.

(** The argument handed to a format's decode function ([in interface{}]). *)
Record AvcIn : Type := mkAvcIn { LengthSize : Z }.   (* format.AvcIn *)

Inductive InArg : Type :=
| InNil
| InAvcIn (a : AvcIn)
| InOptions (kvs : list (string * GoValue))
| InOther (typ : string).

(** [decode.Format], the fields [init] of [avc_au.go] sets. *)
Record Format : Type := mkFormat {
  Name : string;
  Description : string;
  DecodeFn : InArg -> M GoValue;
  RootArray : bool;
  RootName : string
}.

(** *** Decoder API, modelled from the spec *)

(** Modelled from the spec: [D.Fatal] (pkg/decode is not among the
    sources); 4.1.5: aborts the current decode attempt with a
    FormatError carrying the message and the position (7.1). *)
Definition Fatal {A} (msg : string) : M A :=
  fun d => Aborted (ErrFormat (mkFormatError msg (pos d) "")).

(** Modelled from the spec: [D.NotEnd] (pkg/decode is not among the
    sources); 6.1/4.1.2: true while the position has not reached the end
    of the input of the current scope. *)
Definition NotEnd : M bool := fun d => Done (pos d <? scope_end d) d.

Fixpoint bits_to_Z (bs : list bool) (acc : Z) : Z :=
  match bs with
  | [] => acc
  | b :: r => bits_to_Z r (2 * acc + Z.b2z b)
  end.

(** The unsigned big-endian integer held by [w] bits at [p]. *)
Definition read_u (b : Buffer) (p w : Z) : Z :=
  bits_to_Z (take (Z.to_nat w) (drop (Z.to_nat p) b)) 0.

Definition name_taken (name : string) (d : D) : bool :=
  negb (in_array d) && existsb (fun t => String.eqb (tree_name t) name) (fields d).

Definition append_field (t : Tree) (p : Z) (d : D) : D :=
  mkD (bits d) p (scope_end d) (in_array d) (fields d ++ [t]) (cur_err d).

(** Modelled from the spec: [D.FieldU] (pkg/decode is not among the
    sources); 4.1.1: read an unsigned integer of [width] bits at the
    current position, append a scalar child [name] with range
    [pos, pos+width), advance; a duplicate name in a struct, a negative
    width or a width beyond the remaining bits of the innermost scope is
    fatal.  The reader handles widths up to 64 bits (section 2, BitReader). *)
Definition FieldU (name : string) (width : Z) : M Z :=
  fun d =>
    if name_taken name d then Aborted (ErrNameCollision name)
    else if (width <? 0) || (64 <? width) || (scope_end d - pos d <? width)
    then Aborted (ErrRange (pos d))
    else
      let v := read_u (bits d) (pos d) width in
      let leaf := Leaf name (mkRange (pos d) width)
                       (mkScalar (GoUint64 v) GoNil "" false) in
      Done v (append_field leaf (pos d + width) d).

(** Modelled from the spec: [D.FieldStruct] / [D.FieldArray] (pkg/decode
    is not among the sources); 4.1.2: push a new compound, run the body,
    pop; the compound's range is [start_pos, end_pos). *)
Definition field_compound (is_array : bool) (name : string) (body : M unit) : M unit :=
  fun d =>
    if name_taken name d then Aborted (ErrNameCollision name)
    else
      match body (mkD (bits d) (pos d) (scope_end d) is_array [] None) with
      | Done _ d' =>
          let node := Node name (mkRange (pos d) (pos d' - pos d)) is_array
                           (fields d') (cur_err d') None in
          Done tt (append_field node (pos d') d)
      | Aborted e => Aborted e
      | OutOfFuel => OutOfFuel
      end.

Definition FieldStruct : string -> M unit -> M unit := field_compound false.
Definition FieldArray : string -> M unit -> M unit := field_compound true.

(** What a length-scoped sub-decode comes to: a winner with the state of
    its scratch compound, or the errors of all candidates. *)
Inductive attempt : Type :=
| Won (f : Format) (d' : D)
| AllFailed (errs : list FormatError)
| Starved.

(** One candidate, run on a scratch compound of its own over the window
    [p, p+len) (spec 4.1.3, steps 2 and 3; 6.1: the decode function of a
    root-array format fills an array). *)
Definition run_candidate (f : Format) (inArg : InArg) (b : Buffer) (p len : Z)
  : outcome GoValue :=
  DecodeFn f inArg (mkD b p (p + len) (RootArray f) [] None).

Definition error_of (f : Format) (e : DecodeError) : FormatError :=
  match e with
  | ErrFormat fe => mkFormatError (FEMessage fe) (FEPos fe) (Name f)
  | ErrFormats _ => mkFormatError "formats" 0 (Name f)
  | ErrRange p => mkFormatError "range" p (Name f)
  | ErrNameCollision n => mkFormatError n 0 (Name f)
  end.

(** The candidates in order; the first that completes wins, the partial
    children of a failed attempt go with its scratch state (spec 4.1.3
    step 3, section 5). *)
Fixpoint try_formats (fs : list Format) (inArg : InArg) (b : Buffer) (p len : Z)
         (errs : list FormatError) : attempt :=
  match fs with
  | [] => AllFailed errs
  | f :: rest =>
      match run_candidate f inArg b p len with
      | Done _ d' => Won f d'
      | Aborted e => try_formats rest inArg b p len (errs ++ [error_of f e])%list
      | OutOfFuel => Starved
      end
  end.

(** Modelled from the spec: [D.FieldFormatLen] (pkg/decode is not among
    the sources); 4.1.3: the winner's result becomes a child compound
    [name] with range [p, p+length_bits) and the winner as its format, and
    the position advances to [p + length_bits] whatever the winner
    consumed; when every candidate fails the FormatsError is recorded on
    the enclosing compound and the position advances all the same.  A
    window that does not fit the innermost scope is a range error
    (4.1.1). *)
Definition FieldFormatLen (name : string) (length_bits : Z) (formats : list Format)
           (inArg : InArg) : M unit :=
  fun d =>
    if name_taken name d then Aborted (ErrNameCollision name)
    else if (length_bits <? 0) || (scope_end d - pos d <? length_bits)
    then Aborted (ErrRange (pos d))
    else
      match try_formats formats inArg (bits d) (pos d) length_bits [] with
      | Won f d' =>
          let node := Node name (mkRange (pos d) length_bits) (RootArray f)
                           (fields d') (cur_err d') (Some (Name f)) in
          Done tt (append_field node (pos d + length_bits) d)
      | AllFailed errs =>
          Done tt (mkD (bits d) (pos d + length_bits) (scope_end d) (in_array d)
                       (fields d) (Some (ErrFormats errs)))
      | Starved => OutOfFuel
      end.

(** Modelled from the spec: the top-level run of a format (pkg/decode is
    not among the sources); 6.1: a root-array format's decode function
    runs inside an implicit FieldArray named [root_name]; 4.4 steps 2-4:
    the decoder starts at the beginning of the buffer and a Fatal yields
    no tree. *)
Definition decode_root (f : Format) (inArg : InArg) (input : Buffer) : outcome Tree :=
  let d0 := mkD input 0 (Z.of_nat (length input)) (RootArray f) [] None in
  match DecodeFn f inArg d0 with
  | Done _ d' =>
      Done (Node (RootName f) (mkRange 0 (pos d')) (RootArray f)
                 (fields d') (cur_err d') (Some (Name f))) d'
  | Aborted e => Aborted e
  | OutOfFuel => OutOfFuel
  end.

(** The bits of a byte string, most significant bit first. *)
Definition byte_bits (b : Z) : list bool :=
  map (fun i => Z.testbit b (Z.of_nat i)) [7; 6; 5; 4; 3; 2; 1; 0]%nat.

Definition bytes_bits (bs : list Z) : Buffer := flat_map byte_bits bs.

(** The ranges of [ts] follow one another from bit [p] to bit [q], none
    of negative length. *)
Fixpoint tiles (p : Z) (ts : list Tree) (q : Z) : Prop :=
  match ts with
  | [] => p = q
  | t :: rest =>
      Start (tree_range t) = p /\ 0 <= Len (tree_range t) /\
      tiles (p + Len (tree_range t)) rest q
  end.

(** A struct named [name] that no format is attached to. *)
Definition is_struct_named (name : string) (t : Tree) : Prop :=
  exists range children err, t = Node name range false children err None.

End decode.

(** ** Package mpeg: [avc_au.go] *)

Module mpeg.
Import decode.
Local Open Scope decode_scope.

Section AvcAU.

(** [var avcNALUFormat []*decode.Format]: the dependency slot the registry
    fills with the candidates registered as [avc_nalu]. *)
Variable avcNALUFormat : list Format.

(** The body of [for d.NotEnd() { ... }].  [int(avcIn.LengthSize)*8] and
    [int64(l)*8] are Go's wrapping conversions and products. *)
Definition nalu_body (avcIn : AvcIn) : M unit :=
  FieldStruct "nalu"
    (l <- FieldU "length" (wrap64 (wrap64 (LengthSize avcIn) * 8)) ;;
     FieldFormatLen "nalu" (wrap64 (wrap64 l * 8)) avcNALUFormat InNil).

(** The loop of [avcAUDecode]; [fuel] bounds the number of iterations the
    model follows. *)
Fixpoint nalu_loop (fuel : nat) (avcIn : AvcIn) : M unit :=
  fun d =>
    match NotEnd d with
    | Done true d1 =>
        match fuel with
        | O => OutOfFuel
        | S fuel' => (nalu_body avcIn ;; nalu_loop fuel' avcIn) d1
        end
    | Done false d1 => Done tt d1
    | Aborted e => Aborted e
    | OutOfFuel => OutOfFuel
    end.

Definition avcAUDecode (fuel : nat) (inArg : InArg) : M GoValue :=
  match inArg with
  | InAvcIn avcIn => nalu_loop fuel avcIn ;; ret GoNil
  | _ => Fatal "avcIn required"
  end.

(** The shape of a struct the loop appends, over the buffer [b] with a
    length field of [w] bits: the scalar [length] first, read at the
    start of the struct, and the struct as long as the length field and
    the announced length together; then either the sub-decode [nalu] of
    the announced length, won by one of the candidates, or nothing and
    the errors of all candidates on the struct. *)
Definition nalu_shape (b : Buffer) (w : Z) (t : Tree) : Prop :=
  exists p rest err,
    let l := read_u b p w in
    let len := wrap64 (wrap64 l * 8) in
    t = Node "nalu" (mkRange p (w + len)) false
             (Leaf "length" (mkRange p w) (mkScalar (GoUint64 l) GoNil "" false) :: rest)
             err None /\
    0 <= len /\
    ((err = None /\
      exists f d', In f avcNALUFormat /\
                   rest = [Node "nalu" (mkRange (p + w) len) (RootArray f)
                                (fields d') (cur_err d') (Some (Name f))]) \/
     (rest = [] /\ exists errs, err = Some (ErrFormats errs))).

(** The candidates of a sub-decode do not exhaust the loop budget. *)
Definition candidates_return : Prop :=
  forall f inArg d0, In f avcNALUFormat -> DecodeFn f inArg d0 <> OutOfFuel.

(** The format [init] registers. *)
Definition avc_au (fuel : nat) : Format :=
  mkFormat "avc_au" "H.264/AVC Access Unit" (avcAUDecode fuel) true "access_unit".

End AvcAU.

End mpeg.


(** ** Package interp: the value bridge *)

Module interp.
Import decode.

(** *** Go runtime: pointers, slices, panics *)

(** [*decode.Value]: an address of the heap, or nil. *)
Definition ptr : Type := option nat.

(** A Go slice [[]*decode.Value]: its [len] visible elements, and what the
    backing array holds between [len] and [cap].  An index expression is
    checked against [len], a slice expression against [cap]. *)
Record slice : Type := mkSlice { elems : list ptr; spare : list ptr }.

Definition slice_len (s : slice) : Z := Z.of_nat (length (elems s)).
Definition slice_cap (s : slice) : Z := Z.of_nat (length (elems s ++ spare s)).

(** A call either returns or panics. *)
Inductive result (A : Type) : Type :=
| Ok (a : A)
| Panic (msg : string).
Arguments Ok {A} a.
Arguments Panic {A} msg.

#[export] Instance result_ret : MRet result := fun A a => Ok a.
#[export] Instance result_bind : MBind result :=
  fun A B k m => match m with Ok a => k a | Panic msg => Panic msg end.

Fixpoint traverse {A B} (f : A -> result B) (l : list A) : result (list B) :=
  match l with
  | [] => Ok []
  | x :: r => y ← f x; ys ← traverse f r; Ok (y :: ys)
  end.

Definition index_expr (s : slice) (i : Z) : result ptr :=
  if (0 <=? i) && (i <? slice_len s)
  then match elems s !! Z.to_nat i with
       | Some p => Ok p
       | None => Panic "index out of range"
       end
  else Panic "index out of range".

Definition slice_expr (s : slice) (lo hi : Z) : result (list ptr) :=
  if (0 <=? lo) && (lo <=? hi) && (hi <=? slice_cap s)
  then Ok (take (Z.to_nat (hi - lo)) (drop (Z.to_nat lo) (elems s ++ spare s)))
  else Panic "slice bounds out of range".

(** *** Errors and values *)

Inductive error : Type :=
| expectedExtkeyError (Key : string)
| notUpdateableError (Typ Key : string)
| HasKeyTypeError (L R : string)                  (* gojqextra *)
| decodeError (e : DecodeError)                   (* decode.FormatError, ... *)
| cantConvert (what : string) (v : GoValue)       (* fmt.Errorf("can't convert ...") *)
| otherError (msg : string)
| wrapError (prefix : string) (e : error).        (* fmt.Errorf("%s: %w", ...) *)

(** [expectedExtkeyError.Error] and [notUpdateableError.Error]. *)
Definition Error (err : error) : option string :=
  match err with
  | expectedExtkeyError Key => Some ("expected a extkey but got: " ++ Key)%string
  | notUpdateableError Typ Key =>
      Some ("cannot update key " ++ Key ++ " for " ++ Typ)%string
  | _ => None
  end.

(** [errors.As(err, &formatErr)] / [errors.As(err, &decodeFormatsErr)]. *)
Fixpoint as_FormatError (err : error) : option FormatError :=
  match err with
  | decodeError (ErrFormat fe) => Some fe
  | wrapError _ e => as_FormatError e
  | _ => None
  end.

Fixpoint as_FormatsError (err : error) : option (list FormatError) :=
  match err with
  | decodeError (ErrFormats errs) => Some errs
  | wrapError _ e => as_FormatsError e
  | _ => None
  end.

(** [decode.Compound] and [decode.Value] as the bridge reads them. *)
Record Compound : Type := mkCompound {
  IsArray : bool;
  Children : slice;
  CDescription : string;
  CFormat : option Format;          (* *decode.Format, nil when None *)
  Err : option error
}.

Inductive ValueV : Type :=
| VCompound (vv : Compound)
| VScalar (vv : Scalar).

Record Value : Type := mkValue {
  Parent : ptr;
  V : ValueV;
  VName : string;
  VRange : Range;
  RootBitBuf : Buffer
}.

Definition heap : Type := gmap nat Value.

Definition deref (h : heap) (p : ptr) : result Value :=
  match p with
  | None => Panic "nil pointer dereference"
  | Some a =>
      match h !! a with
      | Some v => Ok v
      | None => Panic "nil pointer dereference"
      end
  end.

(** The wrappers of [gojqextra] a scalar is given. *)
Inductive Number : Type :=
| NumInt (n : Z)
| NumBig (n : Z)
| NumFloat (ieee : Z).

Inductive JQValue : Type :=
| JQString (s : string)
| JQBoolean (b : bool)
| JQNumber (n : Number)
| JQArray (vs : list plain)
| JQObject (kvs : list (string * plain))
| JQNull.

Record decodeValue : Type := mkDecodeValue {
  dvJQValue : JQValue;
  dvBase : ptr;                     (* decodeValueBase{dv} *)
  bitsFormat : bool
}.

Record ArrayDecodeValue : Type := mkArrayDecodeValue {
  aTyp : string;                    (* gojqextra.Base{Typ} *)
  aBase : ptr;
  aCompound : Compound
}.

Record StructDecodeValue : Type := mkStructDecodeValue {
  sTyp : string;
  sBase : ptr;
  sCompound : Compound
}.

(** [BufferRange{bb, r, unit}]. *)
Record BufferRange : Type := mkBufferRange { brBuf : Buffer; brRange : Range; brUnit : Z }.

Record openFile : Type := mkOpenFile { filename : string }.

(** [interface{}] as the query engine sees it. *)
Inductive iface : Type :=
| INil
| IBool (b : bool)
| IInt (n : Z)
| IBigInt (n : Z)
| IFloat64 (ieee : Z)
| IString (s : string)
| ISlice (vs : list iface)
| IMap (kvs : list (string * iface))
| IError (err : error)
| IValueError (v : iface)
| IDecodeValue (v : decodeValue)
| IArrayDecodeValue (v : ArrayDecodeValue)
| IStructDecodeValue (v : StructDecodeValue)
| IBufferRange (v : BufferRange)
| IOpenFile (f : openFile).

(** [interp.Options], the field the bridge uses. *)
Record Options : Type := mkOptions {
  BitsFormatFn : Buffer -> iface + error
}.

(** [decode.Options] as [_decode] fills it. *)
Record DecodeOptions : Type := mkDecodeOptions {
  IsRoot : bool;
  FillGaps : bool;
  Force : bool;
  ORange : Range;
  ODescription : string;
  FormatOptions : gmap string iface
}.

(** The local [opts] struct of [_decode]. *)
Record decodeOpts : Type := mkDecodeOpts {
  oFilename : string;
  oForce : bool;
  oProgress : string;
  oRemain : gmap string iface
}.

(** What [_decode] does to the world outside the decoded tree, in order. *)
Inductive event : Type :=
| SetProgressFn (f : openFile) (expr : option string)
| EvalProgress (c : iface) (expr : string)
| CallDecode (input : Buffer) (group : list Format) (o : DecodeOptions).

(** The functions of [pkg/decode], [internal/gojqextra], [mapstructure],
    [fmt] and of the other files of package [interp] that the bridge calls
    and that are not among the sources.  The bridge is verified for
    whatever they compute. *)
Record Env : Type := mkEnv {
  Value_Root : heap -> ptr -> ptr;                    (* Value.Root *)
  Value_BufferRoot : heap -> ptr -> ptr;
  Value_FormatRoot : heap -> ptr -> ptr;
  Value_InnerRange : Value -> Range;
  Scalar_Value : Scalar -> GoValue;                   (* Scalar.Value *)
  FormatError_Value : FormatError -> iface;
  ToGoJQValue : GoValue -> option iface;              (* gojqextra *)
  valuePath : heap -> ptr -> iface;
  toBuffer : BufferRange -> Buffer + error;           (* BufferRange.toBuffer *)
  copyString : Buffer -> string + error;              (* io.Copy; buf.String *)
  NewBufferFromBytes : list Z -> Z -> Buffer;         (* bitio *)
  newBufferRangeFromBuffer : Buffer -> Z -> BufferRange;
  JQValue_JQValueKey : JQValue -> string -> iface;    (* gojq.JQValue methods *)
  JQValue_JQValueHas : JQValue -> iface -> iface;
  JQValue_JQValueToGoJQ : JQValue -> iface;
  Base_JQValueKey : string -> string -> iface;        (* gojqextra.Base *)
  foreign_toValue : iface -> (unit -> Options) -> iface * bool;
  Sprintf_v : iface -> string;                        (* fmt.Sprintf("%v", _) *)
  mapstructure_Decode : iface -> decodeOpts -> decodeOpts;
  toBufferView : iface -> BufferRange + error;
  toString : iface -> string * option error;
  registry_Group : string -> list Format + error;
  decode_Decode : heap -> Buffer -> list Format -> DecodeOptions ->
                  heap * ptr * option error
}.

(** *** The bridge *)

Section Bridge.

Variable env : Env.

Definition NewArrayDecodeValue (dv : ptr) (a : Compound) : ArrayDecodeValue :=
  mkArrayDecodeValue "array" dv a.

Definition NewStructDecodeValue (dv : ptr) (s : Compound) : StructDecodeValue :=
  mkStructDecodeValue "object" dv s.

Definition scalarValue (j : JQValue) (dv : ptr) : result iface :=
  Ok (IDecodeValue (mkDecodeValue j dv false)).

(** [makeDecodeValue]: the two "unreachable" defaults have no case here,
    [ValueV] and [GoValue] list exactly the types the switches name. *)
Definition makeDecodeValue (h : heap) (dv : ptr) : result iface :=
  v ← deref h dv;
  match V v with
  | VCompound vv =>
      if IsArray vv
      then Ok (IArrayDecodeValue (NewArrayDecodeValue dv vv))
      else Ok (IStructDecodeValue (NewStructDecodeValue dv vv))
  | VScalar vv =>
      match Scalar_Value env vv with
      | GoBuffer b =>
          match copyString env b with
          | inr err => Ok (IError err)
          | inl s => Ok (IDecodeValue (mkDecodeValue (JQString s) dv true))
          end
      | GoBool b => scalarValue (JQBoolean b) dv
      | GoInt n => scalarValue (JQNumber (NumInt n)) dv
      | GoInt64 n => scalarValue (JQNumber (NumBig n)) dv
      | GoUint64 n => scalarValue (JQNumber (NumBig n)) dv
      | GoFloat64 f => scalarValue (JQNumber (NumFloat f)) dv
      | GoString s => scalarValue (JQString s) dv
      | GoBytes bs =>
          Ok (IBufferRange
                (newBufferRangeFromBuffer env (NewBufferFromBytes env bs (-1)) 8))
      | GoSlice vs => scalarValue (JQArray vs) dv
      | GoMap kvs => scalarValue (JQObject kvs) dv
      | GoNil => scalarValue JQNull dv
      end
  end.

(** [decodeValueBase.ToBufferView]. *)
Definition ToBufferView (h : heap) (dvb : ptr) : result BufferRange :=
  dv ← deref h dvb;
  Ok (mkBufferRange (RootBitBuf dv) (Value_InnerRange env dv) 8).

Definition is_compound (v : ValueV) : bool :=
  match v with VCompound _ => true | VScalar _ => false end.

(** [decodeValueBase.ExtKeys]. *)
Definition ExtKeys (h : heap) (dvb : ptr) : result (list string) :=
  let kv := ["_start"; "_stop"; "_len"; "_name"; "_root"; "_buffer_root";
             "_format_root"; "_parent"; "_actual"; "_sym"; "_description";
             "_path"; "_bits"; "_bytes"; "_unknown"] in
  dv ← deref h dvb;
  if is_compound (V dv) then Ok (kv ++ ["_error"; "_format"])%list else Ok kv.

(** The reserved extended keys, as the table of spec 4.3.1 lists them. *)
Definition reserved_extkeys : list string :=
  ["_start"; "_stop"; "_len"; "_name"; "_root"; "_buffer_root"; "_format_root";
   "_parent"; "_actual"; "_sym"; "_description"; "_path"; "_bits"; "_bytes";
   "_error"; "_format"; "_unknown"].

(** The reserved keys whose value comes from the node alone. *)
Definition node_keys : list string :=
  ["_start"; "_stop"; "_len"; "_name"; "_description"; "_bits"; "_bytes";
   "_format"; "_unknown"].

Definition description_value (s : string) : iface :=
  if String.eqb s "" then INil else IString s.

(** [decodeValueBase.JQValueKey]: the [switch name], case by case in the
    order of the source; [dv] is dereferenced where a case reads it. *)
Definition decodeValueBase_JQValueKey (h : heap) (dvb : ptr) (name : string)
  : result iface :=
  if String.eqb name "_start" then
    dv ← deref h dvb; Ok (IBigInt (Start (VRange dv)))
  else if String.eqb name "_stop" then
    dv ← deref h dvb; Ok (IBigInt (Stop (VRange dv)))
  else if String.eqb name "_len" then
    dv ← deref h dvb; Ok (IBigInt (Len (VRange dv)))
  else if String.eqb name "_name" then
    dv ← deref h dvb; Ok (IString (VName dv))
  else if String.eqb name "_root" then
    makeDecodeValue h (Value_Root env h dvb)
  else if String.eqb name "_buffer_root" then
    makeDecodeValue h (Value_BufferRoot env h dvb)
  else if String.eqb name "_format_root" then
    makeDecodeValue h (Value_FormatRoot env h dvb)
  else if String.eqb name "_parent" then
    dv ← deref h dvb;
    match Parent dv with
    | None => Ok INil
    | Some a => makeDecodeValue h (Some a)
    end
  else if String.eqb name "_actual" then
    dv ← deref h dvb;
    match V dv with
    | VScalar vv =>
        match ToGoJQValue env (Actual vv) with
        | Some jv => Ok jv
        | None => Ok (IError (cantConvert "actual" (Actual vv)))
        end
    | VCompound _ => Ok INil
    end
  else if String.eqb name "_sym" then
    dv ← deref h dvb;
    match V dv with
    | VScalar vv =>
        match ToGoJQValue env (Sym vv) with
        | Some jv => Ok jv
        | None => Ok (IError (cantConvert "sym" (Actual vv)))
        end
    | VCompound _ => Ok INil
    end
  else if String.eqb name "_description" then
    dv ← deref h dvb;
    match V dv with
    | VCompound vv => Ok (description_value (CDescription vv))
    | VScalar vv => Ok (description_value (SDescription vv))
    end
  else if String.eqb name "_path" then
    Ok (valuePath env h dvb)
  else if String.eqb name "_error" then
    dv ← deref h dvb;
    match V dv with
    | VCompound vv =>
        match Err vv with
        | None => Ok INil
        | Some err =>
            match as_FormatError err with
            | Some formatErr => Ok (FormatError_Value env formatErr)
            | None => Ok (IError err)
            end
        end
    | VScalar _ => Ok INil
    end
  else if String.eqb name "_bits" then
    dv ← deref h dvb; Ok (IBufferRange (mkBufferRange (RootBitBuf dv) (VRange dv) 1))
  else if String.eqb name "_bytes" then
    dv ← deref h dvb; Ok (IBufferRange (mkBufferRange (RootBitBuf dv) (VRange dv) 8))
  else if String.eqb name "_format" then
    dv ← deref h dvb;
    match V dv with
    | VCompound vv =>
        match CFormat vv with
        | Some f => Ok (IString (Name f))
        | None => Ok INil
        end
    | VScalar vv =>
        match Actual vv with
        | GoMap _ | GoSlice _ => Ok (IString "json")
        | _ => Ok INil
        end
    end
  else if String.eqb name "_unknown" then
    dv ← deref h dvb;
    match V dv with
    | VScalar vv => Ok (IBool (Unknown vv))
    | VCompound _ => Ok (IBool false)
    end
  else Ok (IError (expectedExtkeyError name)).

(** [strings.HasPrefix(name, "_")]. *)
Definition HasPrefix_ (name : string) : bool := String.prefix "_" name.

Definition valueKey (name : string) (a b : string -> result iface) : result iface :=
  if HasPrefix_ name then a name else b name.

Definition valueHas (key : iface) (a : string -> result iface)
           (b : iface -> result iface) : result iface :=
  match key with
  | IString stringKey =>
      if HasPrefix_ stringKey then
        x ← a stringKey;
        match x with
        | IError err => Ok (IError err)
        | _ => Ok (IBool true)
        end
      else b key
  | _ => b key
  end.

(** **** decodeValue *)

Definition decodeValue_JQValueKey (h : heap) (v : decodeValue) (name : string)
  : result iface :=
  valueKey name (decodeValueBase_JQValueKey h (dvBase v))
           (fun name => Ok (JQValue_JQValueKey env (dvJQValue v) name)).

Definition decodeValue_JQValueHas (h : heap) (v : decodeValue) (key : iface)
  : result iface :=
  valueHas key (decodeValueBase_JQValueKey h (dvBase v))
           (fun key => Ok (JQValue_JQValueHas env (dvJQValue v) key)).

Definition decodeValue_JQValueToGoJQEx (h : heap) (v : decodeValue)
           (optsFn : unit -> Options) : result iface :=
  if negb (bitsFormat v) then Ok (JQValue_JQValueToGoJQ env (dvJQValue v))
  else
    bv ← ToBufferView h (dvBase v);
    match toBuffer env bv with
    | inr err => Ok (IError err)
    | inl b =>
        match BitsFormatFn (optsFn tt) b with
        | inr err => Ok (IError err)
        | inl s => Ok s
        end
    end.

(** **** ArrayDecodeValue *)

Definition Array_JQValueKey (h : heap) (v : ArrayDecodeValue) (name : string)
  : result iface :=
  valueKey name (decodeValueBase_JQValueKey h (aBase v))
           (fun name => Ok (Base_JQValueKey env (aTyp v) name)).

Definition Array_JQValueLength (v : ArrayDecodeValue) : iface :=
  IInt (slice_len (Children (aCompound v))).

Definition Array_JQValueSliceLen (v : ArrayDecodeValue) : iface :=
  IInt (slice_len (Children (aCompound v))).

Definition Array_JQValueIndex (h : heap) (v : ArrayDecodeValue) (index : Z)
  : result iface :=
  if index <? 0 then Ok INil
  else p ← index_expr (Children (aCompound v)) index; makeDecodeValue h p.

(** [make([]interface{}, end-start)] panics on a negative length; the
    slice expression [children[start:end]] is checked against the
    capacity; each element of it is then adapted. *)
Definition Array_JQValueSlice (h : heap) (v : ArrayDecodeValue) (start end_ : Z)
  : result iface :=
  if wrap64 (end_ - start) <? 0 then Panic "makeslice: len out of range"
  else
    es ← slice_expr (Children (aCompound v)) start end_;
    vs ← traverse (makeDecodeValue h) es;
    Ok (ISlice vs).

(** An update reads nothing and writes nothing: the heap it is given is
    the heap it leaves. *)
Definition Array_JQValueUpdate (v : ArrayDecodeValue) (key u : iface)
           (delpath : bool) (h : heap) : iface * heap :=
  (IError (notUpdateableError "array" (Sprintf_v env key)), h).

Definition Array_JQValueKeys (v : ArrayDecodeValue) : iface :=
  ISlice (map (fun i => IInt (Z.of_nat i))
              (seq 0 (length (elems (Children (aCompound v)))))).

Definition Array_JQValueHas (h : heap) (v : ArrayDecodeValue) (key : iface)
  : result iface :=
  valueHas key (decodeValueBase_JQValueKey h (aBase v))
    (fun key =>
       match key with
       | IInt intKey =>
           Ok (IBool ((0 <=? intKey) && (intKey <? slice_len (Children (aCompound v)))))
       | _ => Ok (IError (HasKeyTypeError "array" (Sprintf_v env key)))
       end).

Definition Array_JQValueToGoJQ (h : heap) (v : ArrayDecodeValue) : result iface :=
  vs ← traverse (makeDecodeValue h) (elems (Children (aCompound v)));
  Ok (ISlice vs).

(** **** StructDecodeValue *)

Definition Struct_JQValueLength (v : StructDecodeValue) : iface :=
  IInt (slice_len (Children (sCompound v))).

(** [for _, f := range children { if f.Name == name { return ... } }]:
    the first child of that name, reading each child up to it. *)
Fixpoint find_child (h : heap) (cs : list ptr) (name : string) : result (option ptr) :=
  match cs with
  | [] => Ok None
  | f :: rest =>
      fv ← deref h f;
      if String.eqb (VName fv) name then Ok (Some f) else find_child h rest name
  end.

Definition Struct_JQValueKey (h : heap) (v : StructDecodeValue) (name : string)
  : result iface :=
  if HasPrefix_ name then decodeValueBase_JQValueKey h (sBase v) name
  else
    found ← find_child h (elems (Children (sCompound v))) name;
    match found with
    | Some f => makeDecodeValue h f
    | None => Ok INil
    end.

Definition Struct_JQValueUpdate (v : StructDecodeValue) (key u : iface)
           (delpath : bool) (h : heap) : iface * heap :=
  (IError (notUpdateableError "object" (Sprintf_v env key)), h).

Definition Struct_JQValueKeys (h : heap) (v : StructDecodeValue) : result iface :=
  vs ← traverse (fun f => fv ← deref h f; Ok (IString (VName fv)))
                (elems (Children (sCompound v)));
  Ok (ISlice vs).

Definition Struct_JQValueHas (h : heap) (v : StructDecodeValue) (key : iface)
  : result iface :=
  valueHas key (decodeValueBase_JQValueKey h (sBase v))
    (fun key =>
       match key with
       | IString stringKey =>
           found ← find_child h (elems (Children (sCompound v))) stringKey;
           Ok (IBool (bool_decide (is_Some found)))
       | _ => Ok (IError (HasKeyTypeError "object" (Sprintf_v env key)))
       end).

(** [vm[f.Name] = makeDecodeValue(f)]: a later child of the same name
    replaces the entry of an earlier one. *)
Fixpoint assoc_set (k : string) (x : iface) (m : list (string * iface))
  : list (string * iface) :=
  match m with
  | [] => [(k, x)]
  | (k', y) :: rest =>
      if String.eqb k' k then (k, x) :: rest else (k', y) :: assoc_set k x rest
  end.

Fixpoint struct_entries (h : heap) (cs : list ptr) (vm : list (string * iface))
  : result (list (string * iface)) :=
  match cs with
  | [] => Ok vm
  | f :: rest =>
      fv ← deref h f;
      x ← makeDecodeValue h f;
      struct_entries h rest (assoc_set (VName fv) x vm)
  end.

Definition Struct_JQValueToGoJQ (h : heap) (v : StructDecodeValue) : result iface :=
  vm ← struct_entries h (elems (Children (sCompound v))) [];
  Ok (IMap vm).

(** The values [toValue] takes as they are. *)
Definition is_plain (v : iface) : bool :=
  match v with
  | INil | IBool _ | IFloat64 _ | IInt _ | IString _ | IBigInt _ | IMap _ | ISlice _ => true
  | _ => false
  end.

(** [toValue]: [(v, ok)].  The three bridge types of this file are
    matched on their methods ([JQValueEx] first, then [gojq.JQValue]);
    what the types declared elsewhere in the package implement is
    [foreign_toValue]. *)
Definition toValue (h : heap) (optsFn : unit -> Options) (v : iface)
  : result (iface * bool) :=
  match v with
  | IDecodeValue dv =>
      x ← decodeValue_JQValueToGoJQEx h dv optsFn; Ok (x, true)
  | IArrayDecodeValue a => x ← Array_JQValueToGoJQ h a; Ok (x, true)
  | IStructDecodeValue s => x ← Struct_JQValueToGoJQ h s; Ok (x, true)
  | INil | IBool _ | IFloat64 _ | IInt _ | IString _ | IBigInt _
  | IMap _ | ISlice _ => Ok (v, true)
  | IBufferRange _ | IError _ | IValueError _ | IOpenFile _ =>
      Ok (foreign_toValue env v optsFn)
  end.

(** **** JQValueEach *)

(** [ArrayDecodeValue.JQValueEach]: [gojq.PathValue{Path: i, Value: ...}]
    for each child, as pairs; [i] counts from the index of the first
    element of [cs]. *)
Fixpoint array_props (h : heap) (i : nat) (cs : list ptr)
  : result (list (iface * iface)) :=
  match cs with
  | [] => Ok []
  | f :: rest =>
      x ← makeDecodeValue h f;
      props ← array_props h (S i) rest;
      Ok ((IInt (Z.of_nat i), x) :: props)
  end.

Definition Array_JQValueEach (h : heap) (v : ArrayDecodeValue)
  : result (list (iface * iface)) :=
  array_props h 0 (elems (Children (aCompound v))).

(** [StructDecodeValue.JQValueEach]: [Path: f.Name]. *)
Fixpoint struct_props (h : heap) (cs : list ptr) : result (list (iface * iface)) :=
  match cs with
  | [] => Ok []
  | f :: rest =>
      fv ← deref h f;
      x ← makeDecodeValue h f;
      props ← struct_props h rest;
      Ok ((IString (VName fv), x) :: props)
  end.

Definition Struct_JQValueEach (h : heap) (v : StructDecodeValue)
  : result (list (iface * iface)) :=
  struct_props h (elems (Children (sCompound v))).

(** Reading [vm[k]] of a Go map kept as a list of entries. *)
Fixpoint assoc_get (k : string) (m : list (string * iface)) : option iface :=
  match m with
  | [] => None
  | (k', y) :: rest => if String.eqb k' k then Some y else assoc_get k rest
  end.

(** Every child pointer of a slice is a node of the heap: what the
    decoder guarantees of the children of a compound. *)
Definition allocated (h : heap) (cs : list ptr) : Prop :=
  Forall (fun p => exists dv, deref h p = Ok dv) cs.

(** **** The query functions *)

(** [_toValue]: [a[0]] selects the options, the [ok] flag is dropped. *)
Definition _toValue (options : iface -> Options) (h : heap) (c a0 : iface)
  : result iface :=
  x ← toValue h (fun _ => options a0) c; Ok (fst x).

(** [_isDecodeValue]: [c.(DecodeValue)] holds for the three bridge types. *)
Definition _isDecodeValue (c : iface) : bool :=
  match c with
  | IDecodeValue _ | IArrayDecodeValue _ | IStructDecodeValue _ => true
  | _ => false
  end.

Definition zero_opts : decodeOpts := mkDecodeOpts "" false "" ∅.

(** The options [_decode] hands to [decode.Decode]. *)
Definition decode_options (opts : decodeOpts) (bv : BufferRange) : DecodeOptions :=
  mkDecodeOptions true true (oForce opts) (brRange bv) (oFilename opts) (oRemain opts).

(** [_decode] from [toBufferView] on: the value returned, the heap the
    decoder leaves, and the calls made. *)
Definition decode_run (opts : decodeOpts) (c a0 : iface) (h : heap)
  : result iface * heap * list event :=
  match toBufferView env c with
  | inr err => (Ok (IError err), h, [])
  | inl bv =>
      match toString env a0 with
      | (formatName, Some err) => (Ok (IError (wrapError formatName err)), h, [])
      | (formatName, None) =>
          match registry_Group env formatName with
          | inr err => (Ok (IError (wrapError formatName err)), h, [])
          | inl decodeFormat =>
              let o := decode_options opts bv in
              let '(h', dv, err) := decode_Decode env h (brBuf bv) decodeFormat o in
              let res :=
                match dv with
                | None =>
                    match err with
                    | Some e =>
                        match as_FormatsError e with
                        | Some errs =>
                            Ok (IValueError (ISlice (map (FormatError_Value env) errs)))
                        | None => Ok (IValueError (IError e))
                        end
                    | None => Ok (IValueError INil)
                    end
                | Some _ => makeDecodeValue h' dv
                end in
              (res, h', [CallDecode (brBuf bv) decodeFormat o])
          end
      end
  end.

(** [_decode]: [a[1]] is decoded into [opts] (errors ignored); an open
    file gives the file name and, when a progress expression is set,
    has its progress function installed for the run and removed by the
    deferred function, which also evaluates the expression on [nil]. *)
Definition _decode (c a0 a1 : iface) (h : heap) : result iface * heap * list event :=
  let opts := mapstructure_Decode env a1 zero_opts in
  match c with
  | IOpenFile bbf =>
      let opts' := mkDecodeOpts (filename bbf) (oForce opts) (oProgress opts)
                                (oRemain opts) in
      if negb (String.eqb (oProgress opts') "") then
        let '(res, h', log) := decode_run opts' c a0 h in
        (res, h',
         [SetProgressFn bbf (Some (oProgress opts'))] ++ log ++
         [SetProgressFn bbf None; EvalProgress INil (oProgress opts')])%list
      else decode_run opts' c a0 h
  | _ => decode_run opts c a0 h
  end.

(** The options [_decode] works with once the open file has given its
    name. *)
Definition effective_opts (c a1 : iface) : decodeOpts :=
  let opts := mapstructure_Decode env a1 zero_opts in
  match c with
  | IOpenFile bbf =>
      mkDecodeOpts (filename bbf) (oForce opts) (oProgress opts) (oRemain opts)
  | _ => opts
  end.

(** The options of the calls to [decode.Decode] in a log. *)
Definition decode_calls (log : list event) : list DecodeOptions :=
  omap (fun e => match e with CallDecode _ _ o => Some o | _ => None end) log.

Definition decode_log (c a0 a1 : iface) (h : heap) : list event :=
  snd (_decode c a0 a1 h).

(** The value [_decode] returns and the heap it leaves. *)
Definition decode_result (c a0 a1 : iface) (h : heap) : result iface :=
  fst (fst (_decode c a0 a1 h)).

Definition decode_heap (c a0 a1 : iface) (h : heap) : heap :=
  snd (fst (_decode c a0 a1 h)).

(** The events of a log that touch the progress function of a file. *)
Definition is_progress_event (e : event) : bool :=
  match e with
  | SetProgressFn _ _ | EvalProgress _ _ => true
  | CallDecode _ _ _ => false
  end.

End Bridge.

End interp.

(** ** A concrete input, a concrete tree, a concrete environment *)

Module sample.
Import decode mpeg interp.

(** A candidate registered under [avc_nalu] for the examples: it reads
    the one-byte NAL unit header and leaves the payload. *)
Definition nalu_header : Format :=
  mkFormat "avc_nalu" "H.264/AVC Network Access Layer Unit"
           (fun _ => (_ <- FieldU "header" 8 ;; ret GoNil)%decode) false "".

(** The buffer of scenario S1 (spec 8.2). *)
Definition s1_input : Buffer :=
  bytes_bits [0x00; 0x00; 0x00; 0x05; 0xAA; 0xBB; 0xCC; 0xDD; 0xEE;
              0x00; 0x00; 0x00; 0x02; 0xFF; 0x01].

Definition scalar_node (parent : nat) (name : string) (start len : Z) (x : GoValue)
  : Value :=
  mkValue (Some parent) (VScalar (mkScalar x GoNil "" false)) name
          (mkRange start len) s1_input.

(** A decoded tree on the heap: a root struct holding the struct [hdr]
    (bits 16 to 80) and the array [items]. *)
Definition hdr_compound : Compound :=
  mkCompound false (mkSlice [Some 2; Some 3; Some 4]%nat [None]) "" None None.

Definition items_compound : Compound :=
  mkCompound true (mkSlice [Some 6; Some 7]%nat [None; None]) "" None None.

Definition root_compound : Compound :=
  mkCompound false (mkSlice [Some 1; Some 5]%nat []) "" (Some nalu_header) None.

(** The node [hdr]: a struct at bit 16, 64 bits long. *)
Definition hdr_node : Value :=
  mkValue (Some 0%nat) (VCompound hdr_compound) "hdr" (mkRange 16 64) s1_input.

Definition tree_heap : heap :=
  list_to_map
    [(0%nat, mkValue None (VCompound root_compound) "root" (mkRange 0 120) s1_input);
     (1%nat, hdr_node);
     (2%nat, scalar_node 1 "version" 16 8 (GoUint64 0));
     (3%nat, scalar_node 1 "data" 24 16 (GoBuffer (take 16 (drop 24 s1_input))));
     (4%nat, scalar_node 1 "blob" 40 40 (GoBytes [0xBB; 0xCC; 0xDD; 0xEE; 0x00]));
     (5%nat, mkValue (Some 0%nat) (VCompound items_compound) "items" (mkRange 80 40) s1_input);
     (6%nat, scalar_node 5 "0" 80 24 (GoMap [("k", PNumber 2)]));
     (7%nat, scalar_node 5 "1" 104 16 (GoString "x"))].

Definition hdr_value : StructDecodeValue := NewStructDecodeValue (Some 1%nat) hdr_compound.
Definition items_value : ArrayDecodeValue := NewArrayDecodeValue (Some 5%nat) items_compound.

(** The decoder at the start of S1, inside the root array. *)
Definition s1_start : D := mkD s1_input 0 120 true [] None.

(** The struct one turn of the loop of [avc_au] appends in S1: the
    32-bit [length] at [start] and the sub-decode [nalu] of [len] bits
    won by [f], whose scratch state was [d']. *)
Definition s1_nalu (start len : Z) (l : Z) (f : Format) (d' : D) : Tree :=
  Node "nalu" (mkRange start (32 + len)) false
       [Leaf "length" (mkRange start 32) (mkScalar (GoUint64 l) GoNil "" false);
        Node "nalu" (mkRange (start + 32) len) (RootArray f)
             (fields d') (cur_err d') (Some (Name f))]
       None None.

(** The scratch state [nalu_header] leaves on a window starting at [p]
    with the byte [x] first. *)
Definition header_state (p len x : Z) : D :=
  mkD s1_input (p + 8) (p + len) false
      [Leaf "header" (mkRange p 8) (mkScalar (GoUint64 x) GoNil "" false)] None.

(** The tree of S1 with [nalu_header] as the only candidate, and the
    decoder state at its end. *)
Definition s1_nalus : list Tree :=
  [s1_nalu 0 40 5 nalu_header (header_state 32 40 0xAA);
   s1_nalu 72 16 2 nalu_header (header_state 104 16 0xFF)].

Definition s1_tree : Tree :=
  Node "access_unit" (mkRange 0 120) true s1_nalus None (Some "avc_au").

Definition s1_final : D := mkD s1_input 120 120 true s1_nalus None.

(** The first two bytes of S1 alone: less than a length field. *)
Definition short_start : D := mkD (take 16 s1_input) 0 16 true [] None.

(** Bits as text, one digit a bit. *)
Fixpoint bits_text (b : Buffer) : string :=
  match b with
  | [] => ""
  | x :: rest => String (if x then "1" else "0")%char (bits_text rest)
  end.

Fixpoint walk_up (fuel : nat) (stop : Value -> bool) (h : heap) (p : ptr) : ptr :=
  match fuel with
  | O => p
  | S fuel' =>
      match deref h p with
      | Ok v =>
          if stop v then p
          else match Parent v with
               | None => p
               | Some a => walk_up fuel' stop h (Some a)
               end
      | Panic _ => p
      end
  end.

Definition has_format (v : Value) : bool :=
  match V v with
  | VCompound vv => bool_decide (is_Some (CFormat vv))
  | VScalar _ => false
  end.

Fixpoint path_names (fuel : nat) (h : heap) (p : ptr) (acc : list iface) : list iface :=
  match fuel with
  | O => acc
  | S fuel' =>
      match deref h p with
      | Ok v =>
          match Parent v with
          | None => acc
          | Some a => path_names fuel' h (Some a) (IString (VName v) :: acc)
          end
      | Panic _ => acc
      end
  end.

Definition plain_scalar (x : GoValue) : option iface :=
  match x with
  | GoBool b => Some (IBool b)
  | GoInt n => Some (IInt n)
  | GoInt64 n | GoUint64 n => Some (IBigInt n)
  | GoFloat64 f => Some (IFloat64 f)
  | GoString s => Some (IString s)
  | GoNil => Some INil
  | _ => None
  end.

Definition unwrap (j : JQValue) : iface :=
  match j with
  | JQString s => IString s
  | JQBoolean b => IBool b
  | JQNumber (NumInt n) => IInt n
  | JQNumber (NumBig n) => IBigInt n
  | JQNumber (NumFloat f) => IFloat64 f
  | _ => INil
  end.

Definition show (x : iface) : string :=
  match x with
  | IString s => s
  | IBool true => "true"
  | IBool false => "false"
  | INil => "<nil>"
  | _ => "?"
  end.

(** Options read from a query object: [force] and [filename] are taken
    when they have the field's type, the rest stays. *)
Definition read_opts (a1 : iface) (o : decodeOpts) : decodeOpts :=
  match a1 with
  | IMap kvs =>
      fold_left
        (fun acc kv =>
           match kv with
           | ("force", IBool b) => mkDecodeOpts (oFilename acc) b (oProgress acc) (oRemain acc)
           | ("filename", IString s) => mkDecodeOpts s (oForce acc) (oProgress acc) (oRemain acc)
           | ("_progress", IString s) => mkDecodeOpts (oFilename acc) (oForce acc) s (oRemain acc)
           | (k, x) => mkDecodeOpts (oFilename acc) (oForce acc) (oProgress acc)
                                    (<[k := x]> (oRemain acc))
           end) kvs o
  | _ => o
  end.

(** A decoder that puts [tree_heap] in place whatever it is given. *)
Definition env : Env :=
  {| Value_Root := fun h p => walk_up (size h) (fun _ => false) h p;
     Value_BufferRoot := fun h p => walk_up (size h) (fun _ => false) h p;
     Value_FormatRoot := fun h p => walk_up (size h) has_format h p;
     Value_InnerRange := VRange;
     Scalar_Value := Actual;
     FormatError_Value := fun fe => IMap [("error", IString (FEMessage fe))];
     ToGoJQValue := plain_scalar;
     valuePath := fun h p => ISlice (path_names (size h) h p []);
     toBuffer := fun bv =>
       inl (take (Z.to_nat (Len (brRange bv)))
                 (drop (Z.to_nat (Start (brRange bv))) (brBuf bv)));
     copyString := fun b => inl (bits_text b);
     NewBufferFromBytes := fun bs _ => bytes_bits bs;
     newBufferRangeFromBuffer := fun b u =>
       mkBufferRange b (mkRange 0 (Z.of_nat (length b))) u;
     JQValue_JQValueKey := fun _ name => INil;
     JQValue_JQValueHas := fun _ _ => IBool false;
     JQValue_JQValueToGoJQ := unwrap;
     Base_JQValueKey := fun typ name => IError (otherError typ);
     foreign_toValue := fun v _ => (v, true);
     Sprintf_v := show;
     mapstructure_Decode := read_opts;
     toBufferView := fun c =>
       match c with
       | IBufferRange bv => inl bv
       | _ => inr (otherError "not a buffer")
       end;
     toString := fun x =>
       match x with
       | IString s => (s, None)
       | _ => ("", Some (otherError "not a string"))
       end;
     registry_Group := fun name =>
       if String.eqb name "avc_nalu" then inl [nalu_header]
       else inr (otherError "format group not found");
     decode_Decode := fun h _ _ _ => (tree_heap, Some 0%nat, None) |}.

Definition bits_options : Options :=
  mkOptions (fun b => inl (IString (bits_text b))).

(** The children of [items] adapted, the pairs [each] gives on [items]
    and on [hdr], and [hdr] as a plain map. *)
Definition items_adapted : list iface :=
  Eval vm_compute in
    match Array_JQValueToGoJQ env tree_heap items_value with
    | Ok (ISlice vs) => vs
    | _ => []
    end.

Definition items_props : list (iface * iface) :=
  Eval vm_compute in
    match Array_JQValueEach env tree_heap items_value with
    | Ok props => props
    | Panic _ => []
    end.

Definition hdr_props : list (iface * iface) :=
  Eval vm_compute in
    match Struct_JQValueEach env tree_heap hdr_value with
    | Ok props => props
    | Panic _ => []
    end.

(** A struct in which the name [version] occurs twice: the children of
    [hdr] followed by a second scalar [version], at address 8. *)
Definition dup_heap : heap :=
  <[8%nat := scalar_node 1 "version" 80 8 (GoUint64 1)]> tree_heap.

Definition dup_value : StructDecodeValue :=
  NewStructDecodeValue (Some 1%nat)
    (mkCompound false (mkSlice [Some 2; Some 3; Some 8]%nat []) "" None None).

Definition dup_plain : list (string * iface) :=
  Eval vm_compute in
    match Struct_JQValueToGoJQ env dup_heap dup_value with
    | Ok (IMap vm) => vm
    | _ => []
    end.

(** An open file and options that ask for progress reports. *)
Definition some_file : openFile := mkOpenFile "clip.h264".

Definition progress_opts : iface :=
  IMap [("_progress", IString "report"); ("force", IBool true)].

End sample.

(** * Properties *)

Import decode mpeg interp.

(** ** Go integers *)

Lemma wrap64_id z : is_int64 z -> wrap64 z = z.
Proof.
  unfold is_int64, wrap64. intros H.
  rewrite Z.mod_small by lia. lia.
Qed.

Lemma wrap64_int64 z : is_int64 (wrap64 z).
Proof.
  unfold is_int64, wrap64.
  pose proof (Z.mod_pos_bound (z + 2 ^ 63) (2 ^ 64) ltac:(lia)). lia.
Qed.

(** ** The access-unit splitter *)

Section AvcAUProperties.

Variable avcNALUFormat : list Format.

Lemma bits_to_Z_nonneg bs acc : 0 <= acc -> 0 <= bits_to_Z bs acc.
Proof.
  revert acc. induction bs as [|b bs IH]; intros acc Hacc; simpl; [lia|].
  apply IH. destruct b; simpl; lia.
Qed.

Lemma read_u_nonneg b p w : 0 <= read_u b p w.
Proof. unfold read_u. apply bits_to_Z_nonneg. lia. Qed.

(** The loop of [avcAUDecode], one turn unfolded. *)
Lemma nalu_loop_step fuel avcIn d :
  nalu_loop avcNALUFormat (S fuel) avcIn d =
  if pos d <? scope_end d
  then (nalu_body avcNALUFormat avcIn ;; nalu_loop avcNALUFormat fuel avcIn)%decode d
  else Done tt d.
Proof. simpl. unfold NotEnd. destruct (pos d <? scope_end d); reflexivity. Qed.

Lemma nalu_loop_end fuel avcIn d :
  scope_end d <= pos d -> nalu_loop avcNALUFormat fuel avcIn d = Done tt d.
Proof.
  intros H. destruct fuel; simpl; unfold NotEnd;
    destruct (Z.ltb_spec (pos d) (scope_end d)); try lia; reflexivity.
Qed.

(** One turn of the loop: a struct [nalu] holding the scalar [length] of
    [LengthSize*8] bits and the sub-decode [nalu] of [length*8] bits. *)
Lemma nalu_body_spec avcIn d f d' :
  let w := LengthSize avcIn * 8 in
  let l := read_u (bits d) (pos d) w in
  0 <= LengthSize avcIn <= 8 ->
  0 <= pos d -> scope_end d < 2 ^ 63 ->
  name_taken "nalu" d = false ->
  w <= scope_end d - pos d ->
  l * 8 <= scope_end d - (pos d + w) ->
  try_formats avcNALUFormat InNil (bits d) (pos d + w) (l * 8) [] = Won f d' ->
  nalu_body avcNALUFormat avcIn d =
  Done tt
    (append_field
       (Node "nalu" (mkRange (pos d) (w + l * 8)) false
             [Leaf "length" (mkRange (pos d) w) (mkScalar (GoUint64 l) GoNil "" false);
              Node "nalu" (mkRange (pos d + w) (l * 8)) (RootArray f)
                   (fields d') (cur_err d') (Some (Name f))]
             None None)
       (pos d + w + l * 8) d).
Proof.
  intros w l HLS Hpos Hend Hname Hw Hl Htry.
  assert (Hl0 : 0 <= l) by apply read_u_nonneg.
  unfold nalu_body, FieldStruct, field_compound. rewrite Hname.
  unfold bind, FieldU. cbn [name_taken in_array fields negb existsb andb pos scope_end bits].
  rewrite (wrap64_id (LengthSize avcIn)) by (unfold is_int64; lia).
  rewrite (wrap64_id (LengthSize avcIn * 8)) by (unfold is_int64; lia).
  fold w.
  replace ((w <? 0) || (64 <? w) || (scope_end d - pos d <? w)) with false
    by (symmetry; rewrite !orb_false_iff, !Z.ltb_ge; unfold w; lia).
  fold l.
  unfold FieldFormatLen, append_field.
  cbn [name_taken in_array fields negb existsb andb pos scope_end bits app tree_name].
  replace (String.eqb "length" "nalu") with false by reflexivity.
  cbn [orb andb].
  rewrite (wrap64_id l) by (unfold is_int64; lia).
  rewrite (wrap64_id (l * 8)) by (unfold is_int64; lia).
  replace ((l * 8 <? 0) || (scope_end d - (pos d + w) <? l * 8)) with false
    by (symmetry; rewrite !orb_false_iff, !Z.ltb_ge; lia).
  rewrite Htry. cbn [pos fields cur_err app].
  replace (pos d + w + l * 8 - pos d) with (w + l * 8) by lia.
  reflexivity.
Qed.

End AvcAUProperties.

Section S1.

Variable avcNALUFormat : list Format.

Lemma s1_loop fuel f1 d1 f2 d2 :
  try_formats avcNALUFormat InNil sample.s1_input 32 40 [] = Won f1 d1 ->
  try_formats avcNALUFormat InNil sample.s1_input 104 16 [] = Won f2 d2 ->
  nalu_loop avcNALUFormat (S (S fuel)) (mkAvcIn 4) sample.s1_start =
  Done tt (mkD sample.s1_input 120 120 true
               [sample.s1_nalu 0 40 5 f1 d1; sample.s1_nalu 72 16 2 f2 d2] None).
Proof.
  intros H1 H2.
  assert (E1 : read_u sample.s1_input 0 32 = 5) by (vm_compute; reflexivity).
  assert (E2 : read_u sample.s1_input 72 32 = 2) by (vm_compute; reflexivity).
  pose proof (nalu_body_spec avcNALUFormat (mkAvcIn 4) sample.s1_start f1 d1) as B1.
  cbv zeta in B1. unfold sample.s1_start in B1.
  cbn [LengthSize bits pos scope_end] in B1.
  change (4 * 8) with 32 in B1. rewrite E1 in B1.
  change (0 + 32) with 32 in B1. change (5 * 8) with 40 in B1.
  specialize (B1 ltac:(lia) ltac:(lia) ltac:(lia) eq_refl ltac:(lia) ltac:(lia) H1).
  rewrite nalu_loop_step. fold sample.s1_start in B1.
  replace (pos sample.s1_start <? scope_end sample.s1_start) with true by reflexivity.
  unfold bind at 1. rewrite B1.
  unfold append_field, sample.s1_start. cbn [bits pos scope_end in_array fields cur_err app].
  change (0 + 32 + 40) with 72. change (32 + 40) with 72.
  set (da := mkD _ 72 _ _ _ _).
  pose proof (nalu_body_spec avcNALUFormat (mkAvcIn 4) da f2 d2) as B2.
  cbv zeta in B2. unfold da in B2.
  cbn [LengthSize bits pos scope_end] in B2.
  change (4 * 8) with 32 in B2. rewrite E2 in B2.
  change (72 + 32) with 104 in B2. change (2 * 8) with 16 in B2.
  specialize (B2 ltac:(lia) ltac:(lia) ltac:(lia) eq_refl ltac:(lia) ltac:(lia) H2).
  fold da in B2.
  rewrite nalu_loop_step.
  replace (pos da <? scope_end da) with true by reflexivity.
  unfold bind at 1. rewrite B2.
  rewrite nalu_loop_end by (cbn; lia).
  reflexivity.
Qed.

End S1.

Section AvcAUClaims.

Variable avcNALUFormat : list Format.

(** C1: decoding [avc_au] fills the root array [access_unit]: while the
    input is not at its end, a turn of the loop appends one struct
    [nalu], made of the unsigned scalar [length] of [LengthSize*8] bits
    and of the sub-decode [nalu] of [length*8] bits tried against the
    [avc_nalu] candidates.  On the 15 bytes of S1 with [LengthSize = 4]
    the tree is the array of two such structs, with ranges
    [0,32)/[32,72) and [72,104)/[104,120), whenever a candidate accepts
    each of the two windows. *)
Theorem avc_au_access_unit :
  (forall fuel avcIn d,
     nalu_loop avcNALUFormat (S fuel) avcIn d =
     if pos d <? scope_end d
     then (nalu_body avcNALUFormat avcIn ;; nalu_loop avcNALUFormat fuel avcIn)%decode d
     else Done tt d) /\
  (forall avcIn d f d',
     let w := LengthSize avcIn * 8 in
     let l := read_u (bits d) (pos d) w in
     0 <= LengthSize avcIn <= 8 ->
     0 <= pos d -> scope_end d < 2 ^ 63 ->
     name_taken "nalu" d = false ->
     w <= scope_end d - pos d ->
     l * 8 <= scope_end d - (pos d + w) ->
     try_formats avcNALUFormat InNil (bits d) (pos d + w) (l * 8) [] = Won f d' ->
     nalu_body avcNALUFormat avcIn d =
     Done tt
       (append_field
          (Node "nalu" (mkRange (pos d) (w + l * 8)) false
                [Leaf "length" (mkRange (pos d) w)
                      (mkScalar (GoUint64 l) GoNil "" false);
                 Node "nalu" (mkRange (pos d + w) (l * 8)) (RootArray f)
                      (fields d') (cur_err d') (Some (Name f))]
                None None)
          (pos d + w + l * 8) d)) /\
  (forall fuel f1 d1 f2 d2,
     (2 <= fuel)%nat ->
     try_formats avcNALUFormat InNil sample.s1_input 32 40 [] = Won f1 d1 ->
     try_formats avcNALUFormat InNil sample.s1_input 104 16 [] = Won f2 d2 ->
     decode_root (avc_au avcNALUFormat fuel) (InAvcIn (mkAvcIn 4)) sample.s1_input =
     Done (Node "access_unit" (mkRange 0 120) true
                [Node "nalu" (mkRange 0 72) false
                      [Leaf "length" (mkRange 0 32)
                            (mkScalar (GoUint64 5) GoNil "" false);
                       Node "nalu" (mkRange 32 40) (RootArray f1)
                            (fields d1) (cur_err d1) (Some (Name f1))]
                      None None;
                 Node "nalu" (mkRange 72 48) false
                      [Leaf "length" (mkRange 72 32)
                            (mkScalar (GoUint64 2) GoNil "" false);
                       Node "nalu" (mkRange 104 16) (RootArray f2)
                            (fields d2) (cur_err d2) (Some (Name f2))]
                      None None]
                None (Some "avc_au"))
          (mkD sample.s1_input 120 120 true
               [sample.s1_nalu 0 40 5 f1 d1; sample.s1_nalu 72 16 2 f2 d2] None)).
Proof.
  split; [| split].
  - apply nalu_loop_step.
  - apply nalu_body_spec.
  - intros fuel f1 d1 f2 d2 Hfuel H1 H2.
    destruct fuel as [|[|fuel]]; try lia.
    unfold decode_root, avc_au, avcAUDecode.
    cbn [DecodeFn RootArray RootName Name].
    change (Z.of_nat (length sample.s1_input)) with 120.
    fold sample.s1_start. unfold bind.
    rewrite (s1_loop avcNALUFormat fuel f1 d1 f2 d2 H1 H2).
    reflexivity.
Qed.

(** C10: an argument that is not a [format.AvcIn] makes [avcAUDecode]
    abort with "avcIn required" whatever the decoder state and the loop
    budget, so before any field is read; a decode that completes was
    given an [AvcIn]. *)
Theorem avc_au_requires_avcIn (fuel : nat) (inArg : InArg) (d : D) :
  ((forall avcIn, inArg <> InAvcIn avcIn) ->
   avcAUDecode avcNALUFormat fuel inArg d =
   Aborted (ErrFormat (mkFormatError "avcIn required" (pos d) ""))) /\
  (forall v d', avcAUDecode avcNALUFormat fuel inArg d = Done v d' ->
                exists avcIn, inArg = InAvcIn avcIn).
Proof.
  split.
  - intros Hnot. destruct inArg; try reflexivity. exfalso. eapply Hnot. reflexivity.
  - intros v d' H. destruct inArg; try discriminate H. eauto.
Qed.

End AvcAUClaims.

Lemma avc_au_access_unit_witness :
  decode_root (avc_au [sample.nalu_header] 2) (InAvcIn (mkAvcIn 4)) sample.s1_input =
  Done (Node "access_unit" (mkRange 0 120) true
             [Node "nalu" (mkRange 0 72) false
                   [Leaf "length" (mkRange 0 32) (mkScalar (GoUint64 5) GoNil "" false);
                    Node "nalu" (mkRange 32 40) false
                         [Leaf "header" (mkRange 32 8)
                               (mkScalar (GoUint64 0xAA) GoNil "" false)]
                         None (Some "avc_nalu")]
                   None None;
              Node "nalu" (mkRange 72 48) false
                   [Leaf "length" (mkRange 72 32) (mkScalar (GoUint64 2) GoNil "" false);
                    Node "nalu" (mkRange 104 16) false
                         [Leaf "header" (mkRange 104 8)
                               (mkScalar (GoUint64 0xFF) GoNil "" false)]
                         None (Some "avc_nalu")]
                   None None]
             None (Some "avc_au"))
       (mkD sample.s1_input 120 120 true
            [sample.s1_nalu 0 40 5 sample.nalu_header (sample.header_state 32 40 0xAA);
             sample.s1_nalu 72 16 2 sample.nalu_header (sample.header_state 104 16 0xFF)]
            None).
Proof.
  apply (proj2 (proj2 (avc_au_access_unit [sample.nalu_header])) 2%nat
               sample.nalu_header (sample.header_state 32 40 0xAA)
               sample.nalu_header (sample.header_state 104 16 0xFF)).
  - lia.
  - vm_compute. reflexivity.
  - vm_compute. reflexivity.
Defined.

Lemma avc_au_requires_avcIn_witness :
  avcAUDecode [sample.nalu_header] 2 InNil sample.s1_start =
  Aborted (ErrFormat (mkFormatError "avcIn required" 0 "")).
Proof.
  apply (proj1 (avc_au_requires_avcIn [sample.nalu_header] 2 InNil sample.s1_start)).
  intros avcIn. discriminate.
Defined.

(** ** The value bridge *)

Section BridgeClaims.

Variable env : Env.

(** A key outside the reserved table falls through every case of the
    switch. *)
Ltac skip_case Hnot :=
  match goal with
  | |- context [String.eqb ?n ?k] =>
      destruct (String.eqb_spec n k) as [-> | _];
      [exfalso; apply Hnot; cbn; tauto |]
  end.

Lemma base_key_unreserved h dvb name :
  ~ In name reserved_extkeys ->
  decodeValueBase_JQValueKey env h dvb name = Ok (IError (expectedExtkeyError name)).
Proof.
  intros Hnot. unfold decodeValueBase_JQValueKey.
  repeat skip_case Hnot. reflexivity.
Qed.

(** The keys [ExtKeys] lists for a compound are the keys of the table. *)
Lemma ExtKeys_compound_reserved h dvb dv ks :
  deref h dvb = Ok dv -> is_compound (V dv) = true ->
  ExtKeys h dvb = Ok ks ->
  forall k, In k ks <-> In k reserved_extkeys.
Proof.
  intros Hdv Hc. unfold ExtKeys. rewrite Hdv. cbn [mbind result_bind]. rewrite Hc.
  intros [= <-] k. cbn. tauto.
Qed.

(** C3: on a struct, an array and a scalar alike, a key that begins with
    "_" and is not in the table of reserved keys is answered by the
    error value [expectedExtkeyError{Key: name}], not by a child and not
    by nil. *)
Theorem unreserved_extkey_error (h : heap) (name : string) :
  HasPrefix_ name = true ->
  ~ In name reserved_extkeys ->
  (forall v : StructDecodeValue,
     Struct_JQValueKey env h v name = Ok (IError (expectedExtkeyError name))) /\
  (forall v : ArrayDecodeValue,
     Array_JQValueKey env h v name = Ok (IError (expectedExtkeyError name))) /\
  (forall v : decodeValue,
     decodeValue_JQValueKey env h v name = Ok (IError (expectedExtkeyError name))).
Proof.
  intros Hpre Hnot. repeat split; intros v.
  - unfold Struct_JQValueKey. rewrite Hpre. now apply base_key_unreserved.
  - unfold Array_JQValueKey, valueKey. rewrite Hpre. now apply base_key_unreserved.
  - unfold decodeValue_JQValueKey, valueKey. rewrite Hpre. now apply base_key_unreserved.
Qed.

(** C5: [_start], [_stop] and [_len] of a node are the big integers
    [range.start], [range.start + range.length] and [range.length], and
    [_start + _len = _stop]; the node's range is a bit range of its
    buffer. *)
Theorem start_stop_len (h : heap) (dvb : ptr) (dv : Value) :
  deref h dvb = Ok dv ->
  valid_range (VRange dv) ->
  decodeValueBase_JQValueKey env h dvb "_start" = Ok (IBigInt (Start (VRange dv))) /\
  decodeValueBase_JQValueKey env h dvb "_stop"
    = Ok (IBigInt (Start (VRange dv) + Len (VRange dv))) /\
  decodeValueBase_JQValueKey env h dvb "_len" = Ok (IBigInt (Len (VRange dv))) /\
  (forall start stop len,
     decodeValueBase_JQValueKey env h dvb "_start" = Ok (IBigInt start) ->
     decodeValueBase_JQValueKey env h dvb "_stop" = Ok (IBigInt stop) ->
     decodeValueBase_JQValueKey env h dvb "_len" = Ok (IBigInt len) ->
     start + len = stop).
Proof.
  intros Hdv (H0 & H1 & H2).
  assert (Hstop : Stop (VRange dv) = Start (VRange dv) + Len (VRange dv)).
  { unfold Stop. apply wrap64_id. unfold is_int64. lia. }
  unfold decodeValueBase_JQValueKey. cbn [String.eqb Ascii.eqb Bool.eqb].
  rewrite Hdv. cbn [mbind result_bind]. rewrite Hstop.
  repeat split. intros start stop len [= <-] [= <-] [= <-]. reflexivity.
Qed.

(** C6: [_format] of a compound is the name of its format, or nil when
    the format pointer is nil; [_format] of a scalar is "json" exactly
    when the actual value is a map or a slice, and nil otherwise. *)
Theorem format_key (h : heap) (dvb : ptr) (dv : Value) :
  deref h dvb = Ok dv ->
  (forall vv f, V dv = VCompound vv -> CFormat vv = Some f ->
     decodeValueBase_JQValueKey env h dvb "_format" = Ok (IString (Name f))) /\
  (forall vv, V dv = VCompound vv -> CFormat vv = None ->
     decodeValueBase_JQValueKey env h dvb "_format" = Ok INil) /\
  (forall vv, V dv = VScalar vv ->
     (decodeValueBase_JQValueKey env h dvb "_format" = Ok (IString "json") <->
      ((exists kvs, Actual vv = GoMap kvs) \/ (exists vs, Actual vv = GoSlice vs))) /\
     (~ ((exists kvs, Actual vv = GoMap kvs) \/ (exists vs, Actual vv = GoSlice vs)) ->
      decodeValueBase_JQValueKey env h dvb "_format" = Ok INil)).
Proof.
  intros Hdv.
  unfold decodeValueBase_JQValueKey. cbn [String.eqb Ascii.eqb Bool.eqb].
  rewrite Hdv. cbn [mbind result_bind].
  split; [| split].
  - intros vv f -> ->. reflexivity.
  - intros vv -> ->. reflexivity.
  - intros vv ->. split.
    + split.
      * destruct (Actual vv); intros [=]; eauto.
      * intros [[kvs ->] | [vs ->]]; reflexivity.
    + intros Hno. destruct (Actual vv); try reflexivity; exfalso; apply Hno; eauto.
Qed.

(** C4: the value made for a compound node is a struct value or an array
    value by [IsArray]; its update, whatever the key, the new value and
    the delete flag, returns [notUpdateableError] with [Typ] "object",
    respectively "array", and leaves the heap of decoded values as it
    was. *)
Theorem update_rejected (h : heap) (dvb : ptr) (dv : Value) (vv : Compound) :
  deref h dvb = Ok dv ->
  V dv = VCompound vv ->
  (IsArray vv = false ->
   exists s, makeDecodeValue env h dvb = Ok (IStructDecodeValue s) /\
     forall key u delpath,
       Struct_JQValueUpdate env s key u delpath h =
       (IError (notUpdateableError "object" (Sprintf_v env key)), h)) /\
  (IsArray vv = true ->
   exists a, makeDecodeValue env h dvb = Ok (IArrayDecodeValue a) /\
     forall key u delpath,
       Array_JQValueUpdate env a key u delpath h =
       (IError (notUpdateableError "array" (Sprintf_v env key)), h)).
Proof.
  intros Hdv HV. unfold makeDecodeValue. rewrite Hdv. cbn [mbind result_bind].
  rewrite HV. split; intros ->; eexists; split; reflexivity.
Qed.

(** *** Conversion to plain values *)

Lemma makeDecodeValue_nil h : exists msg, makeDecodeValue env h None = Panic msg.
Proof. eexists. reflexivity. Qed.

Lemma makeDecodeValue_total h p dv :
  deref h p = Ok dv -> exists x, makeDecodeValue env h p = Ok x.
Proof.
  intros Hdv. unfold makeDecodeValue, scalarValue. rewrite Hdv. cbn [mbind result_bind].
  destruct (V dv) as [vv | vv].
  - destruct (IsArray vv); eauto.
  - destruct (Scalar_Value env vv); eauto.
    destruct (copyString env bb); eauto.
Qed.

(** C7: a scalar whose actual value is a bit buffer becomes a value
    marked [bitsFormat], and its conversion to a plain value is the
    configured [BitsFormatFn] applied to the buffer of the node's bit
    range; a scalar whose actual value is a byte sequence becomes a
    [BufferRange] of unit 8, not a string.  [makeDecodeValue] reads the
    scalar through [Scalar.Value], here the actual value. *)
Theorem bits_and_bytes_scalars (h : heap) (dvb : ptr) (dv : Value) (sc : Scalar)
        (optsFn : unit -> Options) :
  deref h dvb = Ok dv ->
  V dv = VScalar sc ->
  Scalar_Value env sc = Actual sc ->
  (forall b s view,
     Actual sc = GoBuffer b ->
     copyString env b = inl s ->
     toBuffer env (mkBufferRange (RootBitBuf dv) (Value_InnerRange env dv) 8)
       = inl view ->
     makeDecodeValue env h dvb
       = Ok (IDecodeValue (mkDecodeValue (JQString s) dvb true)) /\
     toValue env h optsFn (IDecodeValue (mkDecodeValue (JQString s) dvb true))
       = Ok (match BitsFormatFn (optsFn tt) view with
             | inl x => x
             | inr err => IError err
             end, true)) /\
  (forall bs,
     Actual sc = GoBytes bs ->
     makeDecodeValue env h dvb
       = Ok (IBufferRange
               (newBufferRangeFromBuffer env (NewBufferFromBytes env bs (-1)) 8)) /\
     (forall s, makeDecodeValue env h dvb <> Ok (IString s)) /\
     (forall v, makeDecodeValue env h dvb <> Ok (IDecodeValue v))).
Proof.
  intros Hdv HV Hval. split.
  - intros b s view Hact Hcopy Hview. split.
    + unfold makeDecodeValue. rewrite Hdv. cbn [mbind result_bind].
      rewrite HV, Hval, Hact, Hcopy. reflexivity.
    + unfold toValue, decodeValue_JQValueToGoJQEx, ToBufferView.
      cbn [bitsFormat dvBase negb]. rewrite Hdv. cbn [mbind result_bind].
      rewrite Hview. destruct (BitsFormatFn (optsFn tt) view); reflexivity.
  - intros bs Hact.
    assert (E : makeDecodeValue env h dvb
                = Ok (IBufferRange
                        (newBufferRangeFromBuffer env (NewBufferFromBytes env bs (-1)) 8))).
    { unfold makeDecodeValue. rewrite Hdv. cbn [mbind result_bind].
      rewrite HV, Hval, Hact. reflexivity. }
    rewrite E. repeat split; intros ?; discriminate.
Qed.

(** *** Keys of a struct *)

Lemma find_child_keys h k cs : forall ks,
  traverse (fun f => fv ← deref h f; Ok (IString (VName fv))) cs = Ok ks ->
  exists found, find_child h cs k = Ok found /\
                (is_Some found <-> In (IString k) ks).
Proof.
  induction cs as [| f cs IH]; intros ks Hks.
  - injection Hks as <-. exists None. split; [reflexivity |].
    split; [intros [? [=]] | intros []].
  - cbn [traverse find_child] in *.
    destruct (deref h f) as [fv | msg]; cbn [mbind result_bind] in *; [| discriminate].
    destruct (traverse _ cs) as [ks' | msg]; cbn [mbind result_bind] in *; [| discriminate].
    injection Hks as <-.
    destruct (String.eqb_spec (VName fv) k) as [-> | Hne].
    + exists (Some f). split; [reflexivity |]. split; [intros _; now left | eauto].
    + destruct (IH ks' eq_refl) as (found & Hfound & Hiff).
      exists found. split; [exact Hfound |].
      rewrite Hiff. split; [now right |].
      intros [[= E] | Hin]; [congruence | exact Hin].
Qed.

(** C2, amended: for a struct value and a string key that does not begin
    with "_", [has] answers true exactly when the key is among [keys],
    and false otherwise. *)
Theorem struct_has_iff_keys (h : heap) (v : StructDecodeValue) (k : string)
        (ks : list iface) :
  HasPrefix_ k = false ->
  Struct_JQValueKeys h v = Ok (ISlice ks) ->
  exists b, Struct_JQValueHas env h v (IString k) = Ok (IBool b) /\
            (b = true <-> In (IString k) ks).
Proof.
  intros Hpre Hkeys. unfold Struct_JQValueKeys in Hkeys.
  destruct (traverse _ _) as [ks' | msg] eqn:Htr; cbn [mbind result_bind] in Hkeys;
    [| discriminate].
  injection Hkeys as <-.
  destruct (find_child_keys h k _ _ Htr) as (found & Hfound & Hiff).
  unfold Struct_JQValueHas, valueHas. rewrite Hpre, Hfound. cbn [mbind result_bind].
  eexists. split; [reflexivity |].
  rewrite bool_decide_eq_true. exact Hiff.
Qed.

(** *** Index and slice of an array *)

Lemma traverse_ok {A B} (f : A -> result B) (l : list A) :
  Forall (fun x => exists y, f x = Ok y) l ->
  exists ys, traverse f l = Ok ys /\ length ys = length l.
Proof.
  induction 1 as [| x l [y Hy] _ (ys & Hys & Hlen)].
  - exists []. split; reflexivity.
  - exists (y :: ys). cbn [traverse]. rewrite Hy, Hys. cbn. split; congruence.
Qed.

Lemma traverse_panic {A B} (f : A -> result B) (l : list A) (x : A) :
  In x l -> (exists msg, f x = Panic msg) -> exists msg, traverse f l = Panic msg.
Proof.
  intros Hin [msg Hx]. induction l as [| y l IH]; [destruct Hin |].
  cbn [traverse]. destruct (f y) as [b | m] eqn:Hy; cbn [mbind result_bind]; [| eauto].
  destruct Hin as [-> | Hin]; [congruence |].
  destruct (IH Hin) as [m ->]. cbn [mbind result_bind]. eauto.
Qed.

Lemma allocated_total h cs :
  allocated h cs -> Forall (fun p => exists x, makeDecodeValue env h p = Ok x) cs.
Proof.
  unfold allocated. intros H. eapply Forall_impl; [exact H |].
  intros p [dv Hdv]. eapply makeDecodeValue_total, Hdv.
Qed.

Lemma slice_out_of_bounds h v start end_ :
  start < 0 \/ end_ < start \/ slice_cap (Children (aCompound v)) < end_ ->
  exists msg, Array_JQValueSlice env h v start end_ = Panic msg.
Proof.
  intros Hout. unfold Array_JQValueSlice.
  destruct (wrap64 (end_ - start) <? 0); [eauto |].
  unfold slice_expr.
  replace ((0 <=? start) && (start <=? end_)
           && (end_ <=? slice_cap (Children (aCompound v)))) with false.
  - cbn [mbind result_bind]. eauto.
  - symmetry. rewrite !andb_false_iff, !Z.leb_gt. lia.
Qed.

(** C8: on an array value with [n] children, a negative index is
    answered by nil; an index [i >= n] reaches the index expression,
    which nothing guards, and panics; a slice reads the backing array of
    the children up to its capacity with no check against [n], so it
    panics beyond the capacity and, between [n] and the capacity, hits
    what lies behind the children (nil in a fresh backing array).  With
    the index in [0, n), or the bounds [0 <= start <= end <= n], index
    and slice return the adapted children. *)
Theorem array_index_slice_bounds (h : heap) (v : ArrayDecodeValue) :
  let cs := Children (aCompound v) in
  let n := slice_len cs in
  (forall index, index < 0 -> Array_JQValueIndex env h v index = Ok INil) /\
  (forall index, n <= index ->
     exists msg, Array_JQValueIndex env h v index = Panic msg) /\
  (forall index, 0 <= index < n -> allocated h (elems cs) ->
     exists p x, elems cs !! Z.to_nat index = Some p /\
                 makeDecodeValue env h p = Ok x /\
                 Array_JQValueIndex env h v index = Ok x) /\
  (forall start end_,
     0 <= start <= end_ -> end_ <= n -> is_int64 end_ -> allocated h (elems cs) ->
     exists vs,
       traverse (makeDecodeValue env h)
                (take (Z.to_nat (end_ - start)) (drop (Z.to_nat start) (elems cs)))
         = Ok vs /\
       Z.of_nat (length vs) = end_ - start /\
       Array_JQValueSlice env h v start end_ = Ok (ISlice vs)) /\
  (forall start end_,
     start < 0 \/ end_ < start \/ slice_cap cs < end_ ->
     exists msg, Array_JQValueSlice env h v start end_ = Panic msg) /\
  (forall start end_,
     0 <= start < end_ -> n < end_ -> Forall (fun p => p = None) (spare cs) ->
     exists msg, Array_JQValueSlice env h v start end_ = Panic msg).
Proof.
  intros cs n. unfold n, slice_len.
  split; [| split; [| split; [| split; [| split]]]].
  - intros index Hneg. unfold Array_JQValueIndex.
    destruct (Z.ltb_spec index 0); [reflexivity | lia].
  - intros index Hge. unfold Array_JQValueIndex, index_expr. fold cs.
    destruct (Z.ltb_spec index 0); [lia |].
    replace ((0 <=? index) && (index <? slice_len cs)) with false.
    + cbn [mbind result_bind]. eauto.
    + symmetry. unfold slice_len. rewrite andb_false_iff, Z.ltb_ge. lia.
  - intros index Hin Hall. unfold Array_JQValueIndex, index_expr. fold cs.
    destruct (Z.ltb_spec index 0); [lia |].
    replace ((0 <=? index) && (index <? slice_len cs)) with true
      by (symmetry; unfold slice_len; rewrite andb_true_iff, Z.leb_le, Z.ltb_lt; lia).
    destruct (lookup_lt_is_Some_2 (elems cs) (Z.to_nat index) ltac:(lia)) as [p Hp].
    rewrite Hp. cbn [mbind result_bind].
    pose proof (Forall_lookup_1 _ _ _ _ (allocated_total h _ Hall) Hp) as [x Hx].
    exists p, x. rewrite Hx. auto.
  - intros start end_ Hse Hen Hint Hall.
    assert (Hsub : Forall (fun p => exists x, makeDecodeValue env h p = Ok x)
                     (take (Z.to_nat (end_ - start)) (drop (Z.to_nat start) (elems cs)))).
    { apply Forall_take, Forall_drop, allocated_total, Hall. }
    destruct (traverse_ok _ _ Hsub) as (vs & Hvs & Hlen).
    exists vs. split; [exact Hvs |]. split.
    + rewrite Hlen, length_take, length_drop. lia.
    + unfold Array_JQValueSlice, slice_expr. fold cs.
      rewrite (wrap64_id (end_ - start)) by (unfold is_int64 in *; lia).
      destruct (Z.ltb_spec (end_ - start) 0); [lia |].
      replace ((0 <=? start) && (start <=? end_) && (end_ <=? slice_cap cs)) with true
        by (symmetry; unfold slice_cap; rewrite !andb_true_iff, !Z.leb_le, length_app; lia).
      cbn [mbind result_bind].
      rewrite drop_app_le by lia. rewrite take_app_le by (rewrite length_drop; lia).
      rewrite Hvs. reflexivity.
  - apply slice_out_of_bounds.
  - intros start end_ Hse Hbeyond Hnil.
    destruct (Z.lt_ge_cases (slice_cap cs) end_) as [Hcap | Hcap].
    { apply slice_out_of_bounds. fold cs. lia. }
    unfold Array_JQValueSlice, slice_expr. fold cs.
    destruct (wrap64 (end_ - start) <? 0); [eauto |].
    replace ((0 <=? start) && (start <=? end_) && (end_ <=? slice_cap cs)) with true
      by (symmetry; rewrite !andb_true_iff, !Z.leb_le; lia).
    cbn [mbind result_bind].
    set (l := take _ _).
    assert (Hin : In None l).
    { apply list_elem_of_In. apply (list_elem_of_lookup_2 _ (Z.to_nat (end_ - 1 - start))).
      unfold l. unfold slice_cap in Hcap. rewrite length_app in Hcap.
      rewrite lookup_take_lt by lia. rewrite lookup_drop.
      assert (Hi : (length (elems cs) <= Z.to_nat start + Z.to_nat (end_ - 1 - start))%nat)
        by lia.
      rewrite (lookup_app_r _ _ _ Hi).
      assert (Hj : (Z.to_nat start + Z.to_nat (end_ - 1 - start) - length (elems cs)
                    < length (spare cs))%nat) by lia.
      destruct (lookup_lt_is_Some_2 _ _ Hj) as [p Hp].
      rewrite Hp. f_equal. exact (Forall_lookup_1 _ _ _ _ Hnil Hp). }
    destruct (traverse_panic (makeDecodeValue env h) l None Hin (makeDecodeValue_nil h))
      as [msg ->].
    cbn [mbind result_bind]. eauto.
Qed.

(** *** The options of [_decode] *)

Lemma decode_run_calls opts c a0 h :
  decode_calls (snd (decode_run env opts c a0 h)) =
  match toBufferView env c with
  | inl bv =>
      match toString env a0 with
      | (formatName, None) =>
          match registry_Group env formatName with
          | inl _ => [decode_options opts bv]
          | inr _ => []
          end
      | (_, Some _) => []
      end
  | inr _ => []
  end.
Proof.
  unfold decode_run.
  destruct (toBufferView env c) as [bv | err]; [| reflexivity].
  destruct (toString env a0) as [formatName [err |]]; [reflexivity |].
  destruct (registry_Group env formatName) as [group | err]; [| reflexivity].
  destruct (decode_Decode env h (brBuf bv) group (decode_options opts bv)) as [[h' dv] err].
  reflexivity.
Qed.

Lemma decode_log_calls c a0 a1 h :
  decode_calls (decode_log env c a0 a1 h) =
  decode_calls (snd (decode_run env (effective_opts env c a1) c a0 h)).
Proof.
  unfold decode_log, _decode, effective_opts.
  destruct c; try reflexivity.
  cbn [oProgress].
  destruct (negb (String.eqb (oProgress (mapstructure_Decode env a1 zero_opts)) ""));
    [| reflexivity].
  destruct (decode_run env _ (IOpenFile f) a0 h) as [[res h'] log].
  cbn [snd]. unfold decode_calls.
  rewrite !omap_app. simpl. now rewrite app_nil_r.
Qed.

(** C9: whatever [_decode] is called with, every call it makes to
    [decode.Decode] has [IsRoot] and [FillGaps] true; of the caller's
    options only [force], the file name and the remaining
    format-specific options reach the decoder (the progress expression
    stays with the open file).  When the input, the format name and the
    format group resolve, the decoder is run, once. *)
Theorem decode_always_fills_gaps (c a0 a1 : iface) (h : heap) :
  let opts := mapstructure_Decode env a1 zero_opts in
  (forall o, In o (decode_calls (decode_log env c a0 a1 h)) ->
     IsRoot o = true /\ FillGaps o = true /\
     Force o = oForce opts /\
     FormatOptions o = oRemain opts /\
     ODescription o = match c with
                      | IOpenFile bbf => filename bbf
                      | _ => oFilename opts
                      end) /\
  (forall bv formatName group,
     toBufferView env c = inl bv ->
     toString env a0 = (formatName, None) ->
     registry_Group env formatName = inl group ->
     exists o, decode_calls (decode_log env c a0 a1 h) = [o] /\
               ORange o = brRange bv /\ IsRoot o = true /\ FillGaps o = true).
Proof.
  intros opts. rewrite decode_log_calls, decode_run_calls. split.
  - intros o Hin.
    destruct (toBufferView env c) as [bv | err]; [| destruct Hin].
    destruct (toString env a0) as [formatName [err |]]; [destruct Hin |].
    destruct (registry_Group env formatName) as [group | err]; [| destruct Hin].
    destruct Hin as [<- | []].
    unfold effective_opts. fold opts. destruct c; cbn; auto.
  - intros bv formatName group -> -> ->. eexists. split; [reflexivity |]. cbn. auto.
Qed.

End BridgeClaims.

(** ** The claims on the sample tree *)

Lemma unreserved_extkey_error_witness :
  Struct_JQValueKey sample.env sample.tree_heap sample.hdr_value "_version"
  = Ok (IError (expectedExtkeyError "_version")).
Proof.
  apply (unreserved_extkey_error sample.env sample.tree_heap "_version").
  - reflexivity.
  - cbn. intuition discriminate.
Defined.

Lemma start_stop_len_witness :
  decodeValueBase_JQValueKey sample.env sample.tree_heap (Some 1%nat) "_start"
    = Ok (IBigInt 16) /\
  decodeValueBase_JQValueKey sample.env sample.tree_heap (Some 1%nat) "_stop"
    = Ok (IBigInt 80) /\
  decodeValueBase_JQValueKey sample.env sample.tree_heap (Some 1%nat) "_len"
    = Ok (IBigInt 64).
Proof.
  assert (Hvalid : valid_range (VRange sample.hdr_node)) by (unfold valid_range; cbn; lia).
  destruct (start_stop_len sample.env sample.tree_heap (Some 1%nat) sample.hdr_node
              eq_refl Hvalid) as (A & B & C & _).
  exact (conj A (conj B C)).
Defined.

Lemma format_key_witness :
  decodeValueBase_JQValueKey sample.env sample.tree_heap (Some 1%nat) "_format"
  = Ok INil.
Proof.
  apply (proj1 (proj2 (format_key sample.env sample.tree_heap (Some 1%nat) sample.hdr_node
                                  eq_refl)) sample.hdr_compound); reflexivity.
Defined.

Lemma update_rejected_witness :
  exists s,
    makeDecodeValue sample.env sample.tree_heap (Some 1%nat) = Ok (IStructDecodeValue s) /\
    forall key u delpath,
      Struct_JQValueUpdate sample.env s key u delpath sample.tree_heap =
      (IError (notUpdateableError "object" (Sprintf_v sample.env key)), sample.tree_heap).
Proof.
  exact (proj1 (update_rejected sample.env sample.tree_heap (Some 1%nat) sample.hdr_node
                                sample.hdr_compound eq_refl eq_refl) eq_refl).
Defined.

Lemma bits_and_bytes_scalars_witness :
  makeDecodeValue sample.env sample.tree_heap (Some 4%nat)
  = Ok (IBufferRange
          (mkBufferRange (bytes_bits [0xBB; 0xCC; 0xDD; 0xEE; 0x00]) (mkRange 0 40) 8)).
Proof.
  apply (proj2 (bits_and_bytes_scalars sample.env sample.tree_heap (Some 4%nat)
                  (sample.scalar_node 1 "blob" 40 40
                                      (GoBytes [0xBB; 0xCC; 0xDD; 0xEE; 0x00]))
                  (mkScalar (GoBytes [0xBB; 0xCC; 0xDD; 0xEE; 0x00]) GoNil "" false)
                  (fun _ => sample.bits_options) eq_refl eq_refl eq_refl)
               [0xBB; 0xCC; 0xDD; 0xEE; 0x00] eq_refl).
Defined.

Lemma struct_has_iff_keys_witness :
  exists b,
    Struct_JQValueHas sample.env sample.tree_heap sample.hdr_value (IString "version")
      = Ok (IBool b) /\
    (b = true <-> In (IString "version")
                     [IString "version"; IString "data"; IString "blob"]).
Proof.
  apply (struct_has_iff_keys sample.env sample.tree_heap sample.hdr_value "version");
    reflexivity.
Defined.

(** C2 as stated fails: on the struct [hdr], [has("_start")] is true
    while "_start" is not among the keys. *)
Lemma struct_has_iff_keys_counterexample :
  ~ (forall (h : heap) (v : StructDecodeValue) (k : string) (ks : list iface),
       Struct_JQValueKeys h v = Ok (ISlice ks) ->
       (Struct_JQValueHas sample.env h v (IString k) = Ok (IBool true) <->
        In (IString k) ks)).
Proof.
  intros H.
  specialize (H sample.tree_heap sample.hdr_value "_start"
                [IString "version"; IString "data"; IString "blob"] eq_refl).
  destruct H as [H _]. specialize (H eq_refl).
  cbn in H. intuition discriminate.
Qed.

Lemma array_index_slice_bounds_witness :
  (exists msg, Array_JQValueIndex sample.env sample.tree_heap sample.items_value 2
               = Panic msg) /\
  (exists msg, Array_JQValueSlice sample.env sample.tree_heap sample.items_value 1 3
               = Panic msg).
Proof.
  pose proof (array_index_slice_bounds sample.env sample.tree_heap sample.items_value)
    as (_ & Hidx & _ & _ & _ & Hslice).
  split.
  - apply Hidx. vm_compute. discriminate.
  - apply Hslice.
    + lia.
    + vm_compute. reflexivity.
    + repeat constructor.
Defined.

Lemma decode_always_fills_gaps_witness :
  exists o,
    decode_calls
      (decode_log sample.env
         (IBufferRange (mkBufferRange sample.s1_input (mkRange 0 120) 8))
         (IString "avc_nalu")
         (IMap [("force", IBool true); ("fill_gaps", IBool false)])
         sample.tree_heap) = [o] /\
    ORange o = mkRange 0 120 /\ IsRoot o = true /\ FillGaps o = true.
Proof.
  apply (proj2 (decode_always_fills_gaps sample.env
                  (IBufferRange (mkBufferRange sample.s1_input (mkRange 0 120) 8))
                  (IString "avc_nalu")
                  (IMap [("force", IBool true); ("fill_gaps", IBool false)])
                  sample.tree_heap)
               (mkBufferRange sample.s1_input (mkRange 0 120) 8)
               "avc_nalu" [sample.nalu_header]); reflexivity.
Defined.

(** * Further properties *)

(** ** The access-unit loop *)

Section AvcAULoop.

Variable avcNALUFormat : list Format.

(** What a turn of the loop leaves when it completes: one more child, a
    struct [nalu] that starts at the old position and ends at the new
    one, at least the length field further and still inside the scope. *)
Lemma nalu_body_done avcIn d d' :
  nalu_body avcNALUFormat avcIn d = Done tt d' ->
  pos d <= scope_end d ->
  let w := wrap64 (wrap64 (LengthSize avcIn) * 8) in
  0 <= w <= 64 /\
  pos d + w <= pos d' <= scope_end d /\
  exists kids err,
    d' = append_field (Node "nalu" (mkRange (pos d) (pos d' - pos d)) false kids err None)
                      (pos d') d.
Proof.
  intros Hdone Hpos w.
  unfold nalu_body, FieldStruct, field_compound in Hdone.
  destruct (name_taken "nalu" d); [discriminate |].
  unfold bind, FieldU in Hdone.
  cbn [name_taken in_array fields negb existsb andb pos scope_end bits] in Hdone.
  fold w in Hdone.
  destruct ((w <? 0) || (64 <? w) || (scope_end d - pos d <? w)) eqn:Hw; [discriminate |].
  rewrite !orb_false_iff, !Z.ltb_ge in Hw. destruct Hw as [[Hw0 Hw64] Hwfit].
  unfold FieldFormatLen, append_field in Hdone.
  cbn [name_taken in_array fields negb existsb andb pos scope_end bits app tree_name]
    in Hdone.
  replace (String.eqb "length" "nalu") with false in Hdone by reflexivity.
  cbn [orb andb] in Hdone.
  set (l := read_u (bits d) (pos d) w) in Hdone.
  set (L := wrap64 (wrap64 l * 8)) in Hdone.
  destruct ((L <? 0) || (scope_end d - (pos d + w) <? L)) eqn:HL; [discriminate |].
  rewrite !orb_false_iff, !Z.ltb_ge in HL. destruct HL as [HL0 HLfit].
  destruct (try_formats avcNALUFormat InNil (bits d) (pos d + w) L []) as [f s | errs |];
    [| | discriminate]; cbn [pos fields cur_err app] in Hdone;
    injection Hdone as <-; cbn [pos];
    (split; [lia |]); (split; [lia |]); eexists _, _; reflexivity.
Qed.

Lemma tiles_snoc p ts q t :
  tiles p ts q -> Start (tree_range t) = q -> 0 <= Len (tree_range t) ->
  tiles p (ts ++ [t]) (q + Len (tree_range t)).
Proof.
  revert p. induction ts as [| t0 ts IH]; intros p; cbn [tiles app].
  - intros <- Hs Hl. auto.
  - intros (Hs0 & Hl0 & Hrest) Hs Hl. auto.
Qed.

Lemma tiles_cons p t ts q :
  Start (tree_range t) = p -> 0 <= Len (tree_range t) ->
  tiles (p + Len (tree_range t)) ts q -> tiles p (t :: ts) q.
Proof. cbn [tiles]. auto. Qed.

(** The loop, run to completion from inside its scope. *)
Lemma nalu_loop_done avcIn fuel : forall d d',
  nalu_loop avcNALUFormat fuel avcIn d = Done tt d' ->
  pos d <= scope_end d ->
  pos d' = scope_end d /\ scope_end d' = scope_end d /\ bits d' = bits d /\
  in_array d' = in_array d /\ cur_err d' = cur_err d /\
  exists new, fields d' = (fields d ++ new)%list /\
              Forall (is_struct_named "nalu") new /\
              tiles (pos d) new (scope_end d).
Proof.
  induction fuel as [| fuel IH]; intros d d' Hdone Hpos.
  - cbn [nalu_loop] in Hdone. unfold NotEnd in Hdone.
    destruct (Z.ltb_spec (pos d) (scope_end d)); [discriminate |].
    injection Hdone as <-. repeat split; try lia.
    exists []. rewrite app_nil_r. repeat split; [constructor | cbn; lia].
  - rewrite nalu_loop_step in Hdone.
    destruct (Z.ltb_spec (pos d) (scope_end d)).
    + unfold bind in Hdone.
      destruct (nalu_body avcNALUFormat avcIn d) as [[] d1 | e |] eqn:Hbody;
        try discriminate.
      destruct (nalu_body_done avcIn d d1 Hbody Hpos) as (Hw & Hd1 & kids & err & Eq).
      assert (Hs1 : scope_end d1 = scope_end d) by (rewrite Eq; reflexivity).
      assert (Hp1 : pos d1 <= scope_end d1) by lia.
      destruct (IH d1 d' Hdone Hp1) as (A & B & C & D' & E & new & Hnew & Hall & Htiles).
      rewrite Hs1 in *.
      assert (Hf1 : fields d1 = (fields d ++
                [Node "nalu" (mkRange (pos d) (pos d1 - pos d)) false kids err None])%list)
        by (rewrite Eq at 1; reflexivity).
      repeat split; try assumption.
      * rewrite C, Eq. reflexivity.
      * rewrite D', Eq. reflexivity.
      * rewrite E, Eq. reflexivity.
      * eexists (_ :: new). rewrite Hnew, Hf1, <- app_assoc. split; [reflexivity |].
        split.
        -- constructor; [| exact Hall]. eexists _, _, _. reflexivity.
        -- apply tiles_cons; cbn [tree_range Start Len]; [reflexivity | lia |].
           replace (pos d + (pos d1 - pos d)) with (pos d1) by lia. exact Htiles.
    + injection Hdone as <-. repeat split; try lia.
      exists []. rewrite app_nil_r. repeat split; [constructor | cbn; lia].
Qed.

(** X1: an [avc_au] decode that completes has consumed the input to its
    end: the root is the array [access_unit] over the whole buffer, no
    error on it, and its children are structs [nalu] whose ranges follow
    one another from bit 0 to the last bit. *)
Theorem avc_au_covers_input (fuel : nat) (avcIn : AvcIn) (input : Buffer)
        (t : Tree) (d' : D) :
  decode_root (avc_au avcNALUFormat fuel) (InAvcIn avcIn) input = Done t d' ->
  exists nalus,
    t = Node "access_unit" (mkRange 0 (Z.of_nat (length input))) true nalus None
             (Some "avc_au") /\
    Forall (is_struct_named "nalu") nalus /\
    tiles 0 nalus (Z.of_nat (length input)).
Proof.
  unfold decode_root, avc_au, avcAUDecode.
  cbn [DecodeFn RootArray RootName Name]. unfold bind, ret.
  set (d0 := mkD input 0 _ true [] None).
  destruct (nalu_loop avcNALUFormat fuel avcIn d0) as [[] d1 | e |] eqn:Hloop;
    try discriminate.
  intros [= <- <-].
  destruct (nalu_loop_done avcIn fuel d0 d1 Hloop) as (A & _ & _ & _ & E & new & Hnew & Hall & Ht).
  { cbn. lia. }
  cbn [fields app pos scope_end cur_err d0] in *.
  exists new. rewrite A, E, Hnew. auto.
Qed.

Lemma try_formats_returns inArg b p len :
  candidates_return avcNALUFormat ->
  forall fs errs, (forall f, In f fs -> In f avcNALUFormat) ->
                  try_formats fs inArg b p len errs <> Starved.
Proof.
  intros Hc fs. induction fs as [| f fs IH]; intros errs Hsub; cbn [try_formats].
  - discriminate.
  - unfold run_candidate.
    destruct (DecodeFn f inArg _) eqn:Hf.
    + discriminate.
    + apply IH. intros g Hg. apply Hsub. now right.
    + exfalso. eapply Hc; [| exact Hf]. apply Hsub. now left.
Qed.

Lemma nalu_body_returns avcIn d :
  candidates_return avcNALUFormat -> nalu_body avcNALUFormat avcIn d <> OutOfFuel.
Proof.
  intros Hc. unfold nalu_body, FieldStruct, field_compound.
  destruct (name_taken "nalu" d); [discriminate |].
  unfold bind, FieldU.
  cbn [name_taken in_array fields negb existsb andb pos scope_end bits].
  destruct (_ || _ || _); [discriminate |].
  unfold FieldFormatLen, append_field.
  cbn [name_taken in_array fields negb existsb andb pos scope_end bits app tree_name].
  replace (String.eqb "length" "nalu") with false by reflexivity.
  cbn [orb andb].
  destruct (_ || _); [discriminate |].
  match goal with
  | |- context [try_formats ?fs ?i ?b ?p ?l ?e] =>
      pose proof (try_formats_returns i b p l Hc fs e (fun f H => H)) as Htry;
      destruct (try_formats fs i b p l e)
  end; try discriminate. congruence.
Qed.

(** X2: with a length field of at least one bit and candidates that
    return, a budget of one turn per remaining bit is enough: the decode
    ends, completed or aborted. *)
Theorem avc_au_terminates (fuel : nat) (inArg : InArg) (d : D) :
  candidates_return avcNALUFormat ->
  (forall avcIn, inArg = InAvcIn avcIn ->
                 wrap64 (wrap64 (LengthSize avcIn) * 8) <> 0) ->
  scope_end d - pos d <= Z.of_nat fuel ->
  avcAUDecode avcNALUFormat fuel inArg d <> OutOfFuel.
Proof.
  intros Hc Hw Hfuel. unfold avcAUDecode.
  destruct inArg as [| avcIn | |]; try discriminate.
  specialize (Hw avcIn eq_refl).
  enough (Hloop : nalu_loop avcNALUFormat fuel avcIn d <> OutOfFuel).
  { unfold bind, ret. destruct (nalu_loop _ _ _ _); congruence. }
  revert d Hfuel. induction fuel as [| fuel IH]; intros d Hfuel.
  - cbn [nalu_loop]. unfold NotEnd.
    destruct (Z.ltb_spec (pos d) (scope_end d)); [cbn in Hfuel; lia | discriminate].
  - rewrite nalu_loop_step.
    destruct (Z.ltb_spec (pos d) (scope_end d)); [| discriminate].
    unfold bind.
    destruct (nalu_body avcNALUFormat avcIn d) as [[] d1 | e |] eqn:Hbody.
    + destruct (nalu_body_done avcIn d d1 Hbody ltac:(lia)) as (Hw64 & Hd1 & kids & err & Eq).
      apply IH. replace (scope_end d1) with (scope_end d) by (rewrite Eq; reflexivity).
      lia.
    + discriminate.
    + exfalso. eapply nalu_body_returns; eauto.
Qed.

(** X3: a truncated access unit aborts the decode with a range error
    and yields no tree: when fewer bits remain than the length field
    takes, and when the length read announces more bits than remain. *)
Theorem avc_au_truncated (fuel : nat) (avcIn : AvcIn) (d : D) :
  let w := LengthSize avcIn * 8 in
  1 <= LengthSize avcIn <= 8 ->
  in_array d = true ->
  0 <= pos d < scope_end d ->
  scope_end d < 2 ^ 63 ->
  (scope_end d - pos d < w ->
   avcAUDecode avcNALUFormat (S fuel) (InAvcIn avcIn) d = Aborted (ErrRange (pos d))) /\
  (w <= scope_end d - pos d ->
   scope_end d - (pos d + w) < read_u (bits d) (pos d) w * 8 < 2 ^ 63 ->
   avcAUDecode avcNALUFormat (S fuel) (InAvcIn avcIn) d
   = Aborted (ErrRange (pos d + w))).
Proof.
  intros w HLS Harr Hpos Hend.
  assert (Hww : wrap64 (wrap64 (LengthSize avcIn) * 8) = w).
  { rewrite (wrap64_id (LengthSize avcIn)) by (unfold is_int64; lia).
    apply wrap64_id. unfold is_int64, w. lia. }
  assert (Hstart : forall X,
            nalu_body avcNALUFormat avcIn d = Aborted X ->
            avcAUDecode avcNALUFormat (S fuel) (InAvcIn avcIn) d = Aborted X).
  { intros X HX. unfold avcAUDecode, bind. rewrite nalu_loop_step.
    destruct (Z.ltb_spec (pos d) (scope_end d)); [| lia].
    unfold bind. rewrite HX. reflexivity. }
  assert (Hname : name_taken "nalu" d = false) by (unfold name_taken; rewrite Harr; reflexivity).
  split.
  - intros Hshort. apply Hstart.
    unfold nalu_body, FieldStruct, field_compound. rewrite Hname.
    unfold bind, FieldU.
    cbn [name_taken in_array fields negb existsb andb pos scope_end bits].
    rewrite Hww.
    replace ((w <? 0) || (64 <? w) || (scope_end d - pos d <? w)) with true; [reflexivity |].
    symmetry. rewrite !orb_true_iff, !Z.ltb_lt. lia.
  - intros Hfit Hlong. apply Hstart.
    unfold nalu_body, FieldStruct, field_compound. rewrite Hname.
    unfold bind, FieldU.
    cbn [name_taken in_array fields negb existsb andb pos scope_end bits].
    rewrite Hww.
    replace ((w <? 0) || (64 <? w) || (scope_end d - pos d <? w)) with false
      by (symmetry; rewrite !orb_false_iff, !Z.ltb_ge; unfold w; lia).
    unfold FieldFormatLen, append_field.
    cbn [name_taken in_array fields negb existsb andb pos scope_end bits app tree_name].
    replace (String.eqb "length" "nalu") with false by reflexivity.
    cbn [orb andb].
    set (l := read_u (bits d) (pos d) w) in *.
    assert (Hl0 : 0 <= l) by apply read_u_nonneg.
    rewrite (wrap64_id l) by (unfold is_int64; lia).
    rewrite (wrap64_id (l * 8)) by (unfold is_int64; lia).
    replace ((l * 8 <? 0) || (scope_end d - (pos d + w) <? l * 8)) with true; [reflexivity |].
    symmetry. rewrite !orb_true_iff, !Z.ltb_lt. lia.
Qed.

End AvcAULoop.

(** ** Keys, membership and lookup on the bridge *)

Section BridgeLookup.

Variable env : Env.

(** A node of the heap is never adapted to nil. *)
Lemma makeDecodeValue_not_nil h p dv :
  deref h p = Ok dv ->
  exists x, makeDecodeValue env h p = Ok x /\ x <> INil.
Proof.
  intros Hdv. unfold makeDecodeValue, scalarValue. rewrite Hdv. cbn [mbind result_bind].
  destruct (V dv) as [vv | vv].
  - destruct (IsArray vv); eexists; split; try reflexivity; discriminate.
  - destruct (Scalar_Value env vv); try (eexists; split; [reflexivity | discriminate]).
    destruct (copyString env bb); eexists; split; try reflexivity; discriminate.
Qed.

Lemma array_keys_in (n : nat) (i : Z) :
  In (IInt i) (map (fun k => IInt (Z.of_nat k)) (seq 0 n)) <-> 0 <= i < Z.of_nat n.
Proof.
  rewrite in_map_iff. split.
  - intros (k & [= <-] & Hk). apply in_seq in Hk. lia.
  - intros Hi. exists (Z.to_nat i). split; [f_equal; lia | apply in_seq; lia].
Qed.

(** X4: on an array value, [has] of an integer key is true exactly for
    the keys that [keys] lists, the indices from 0 to the length. *)
Theorem array_has_iff_keys (h : heap) (v : ArrayDecodeValue) (i : Z) (ks : list iface) :
  Array_JQValueKeys v = ISlice ks ->
  exists b, Array_JQValueHas env h v (IInt i) = Ok (IBool b) /\
            (b = true <-> In (IInt i) ks) /\
            (b = true <-> 0 <= i < slice_len (Children (aCompound v))).
Proof.
  unfold Array_JQValueKeys. intros [= <-].
  unfold Array_JQValueHas, valueHas. eexists. split; [reflexivity |].
  rewrite array_keys_in. unfold slice_len.
  rewrite andb_true_iff, Z.leb_le, Z.ltb_lt. tauto.
Qed.

(** X5: on an array value whose children are nodes of the heap, [index]
    returns a value other than nil exactly at the integer keys [has]
    accepts. *)
Theorem array_index_iff_has (h : heap) (v : ArrayDecodeValue) (i : Z) :
  allocated h (elems (Children (aCompound v))) ->
  (Array_JQValueHas env h v (IInt i) = Ok (IBool true) <->
   exists x, Array_JQValueIndex env h v i = Ok x /\ x <> INil).
Proof.
  intros Hall. unfold Array_JQValueHas, valueHas, Array_JQValueIndex, index_expr.
  set (cs := Children (aCompound v)). unfold slice_len.
  destruct (Z.ltb_spec i 0) as [Hneg | Hpos].
  - replace (0 <=? i) with false by (symmetry; apply Z.leb_gt; lia). cbn [andb].
    split; [discriminate | intros (x & [= <-] & Hx); congruence].
  - replace (0 <=? i) with true by (symmetry; apply Z.leb_le; lia). cbn [andb].
    destruct (Z.ltb_spec i (Z.of_nat (length (elems cs)))) as [Hlt | Hge].
    + split; [intros _ | reflexivity].
      destruct (lookup_lt_is_Some_2 (elems cs) (Z.to_nat i) ltac:(lia)) as [p Hp].
      rewrite Hp. cbn [mbind result_bind].
      destruct (Forall_lookup_1 _ _ _ _ Hall Hp) as [dv Hdv].
      exact (makeDecodeValue_not_nil h p dv Hdv).
    + cbn [mbind result_bind]. split; [discriminate | intros (x & [=] & _)].
Qed.

Lemma find_child_some h k cs f :
  find_child h cs k = Ok (Some f) ->
  exists fv, deref h f = Ok fv /\ VName fv = k /\ In f cs.
Proof.
  induction cs as [| c cs IH]; cbn [find_child]; [discriminate |].
  destruct (deref h c) as [cv | msg] eqn:Hc; cbn [mbind result_bind]; [| discriminate].
  destruct (String.eqb_spec (VName cv) k) as [Hk | Hk].
  - intros [= <-]. exists cv. repeat split; auto. now left.
  - intros H. destruct (IH H) as (fv & A & B & C). exists fv. repeat split; auto. now right.
Qed.

Lemma find_child_first h k pre f post fv :
  Forall (fun p => exists pv, deref h p = Ok pv /\ VName pv <> k) pre ->
  deref h f = Ok fv -> VName fv = k ->
  find_child h (pre ++ f :: post) k = Ok (Some f).
Proof.
  intros Hpre Hf Hk. induction Hpre as [| p pre (pv & Hp & Hne) _ IH]; cbn [app find_child].
  - rewrite Hf. cbn [mbind result_bind]. rewrite Hk, String.eqb_refl. reflexivity.
  - rewrite Hp. cbn [mbind result_bind].
    destruct (String.eqb_spec (VName pv) k); [contradiction | exact IH].
Qed.

(** X6: on a struct value, a name without the "_" prefix is looked up
    among the children: the answer is nil exactly when the name is not
    among [keys], and it is the first child of that name when several
    children carry it. *)
Theorem struct_key_lookup (h : heap) (v : StructDecodeValue) (name : string)
        (ks : list iface) :
  HasPrefix_ name = false ->
  Struct_JQValueKeys h v = Ok (ISlice ks) ->
  (Struct_JQValueKey env h v name = Ok INil <-> ~ In (IString name) ks) /\
  (forall pre f post fv,
     elems (Children (sCompound v)) = (pre ++ f :: post)%list ->
     Forall (fun p => exists pv, deref h p = Ok pv /\ VName pv <> name) pre ->
     deref h f = Ok fv -> VName fv = name ->
     Struct_JQValueKey env h v name = makeDecodeValue env h f).
Proof.
  intros Hpre Hkeys. split.
  - unfold Struct_JQValueKeys in Hkeys.
    destruct (traverse _ _) as [ks' | msg] eqn:Htr; cbn [mbind result_bind] in Hkeys;
      [| discriminate].
    injection Hkeys as <-.
    destruct (find_child_keys h name _ _ Htr) as (found & Hfound & Hiff).
    unfold Struct_JQValueKey. rewrite Hpre, Hfound. cbn [mbind result_bind].
    rewrite <- Hiff. destruct found as [f |].
    + destruct (find_child_some h name _ f Hfound) as (fv & Hf & _ & _).
      destruct (makeDecodeValue_not_nil h f fv Hf) as (x & -> & Hx).
      split; [intros [= E]; congruence | intros Hno; exfalso; apply Hno; eauto].
    + split; [intros _ [? [=]] | reflexivity].
  - intros pre f post fv Hel Hall Hf Hname.
    unfold Struct_JQValueKey. rewrite Hpre, Hel.
    rewrite (find_child_first h name pre f post fv Hall Hf Hname).
    reflexivity.
Qed.

(** X7: [has] of a key that begins with "_" and is not in the table of
    reserved keys is the error value [expectedExtkeyError], not false,
    on a struct, an array and a scalar alike. *)
Theorem has_unreserved_extkey_error (h : heap) (name : string) :
  HasPrefix_ name = true ->
  ~ In name reserved_extkeys ->
  (forall v : StructDecodeValue,
     Struct_JQValueHas env h v (IString name) = Ok (IError (expectedExtkeyError name))) /\
  (forall v : ArrayDecodeValue,
     Array_JQValueHas env h v (IString name) = Ok (IError (expectedExtkeyError name))) /\
  (forall v : decodeValue,
     decodeValue_JQValueHas env h v (IString name)
     = Ok (IError (expectedExtkeyError name))).
Proof.
  intros Hpre Hnot.
  repeat split; intros v;
    unfold Struct_JQValueHas, Array_JQValueHas, decodeValue_JQValueHas, valueHas;
    rewrite Hpre, (base_key_unreserved env h _ name Hnot); reflexivity.
Qed.

Lemma node_key_has h dvb dv name (b : iface -> result iface) :
  deref h dvb = Ok dv -> In name node_keys ->
  valueHas (IString name) (decodeValueBase_JQValueKey env h dvb) b = Ok (IBool true).
Proof.
  intros Hdv Hin. unfold valueHas.
  cbn in Hin.
  repeat (destruct Hin as [<- | Hin]; [
    match goal with
    | |- context [HasPrefix_ ?k] => change (HasPrefix_ k) with true
    end;
    unfold decodeValueBase_JQValueKey;
    cbn [String.eqb Ascii.eqb Bool.eqb];
    rewrite Hdv; cbn [mbind result_bind];
    first [ reflexivity
          | destruct (V dv) as [vv | vv]; unfold description_value;
            repeat match goal with
                   | |- context [match ?x with _ => _ end] => destruct x
                   | |- context [if ?x then _ else _] => destruct x
                   end; reflexivity ] |]).
  destruct Hin.
Qed.

(** X8: for a value whose node is on the heap, [has] of "_start",
    "_stop", "_len", "_name", "_description", "_bits", "_bytes",
    "_format" and "_unknown" is true, on a struct whatever its children
    are called, on an array and on a scalar. *)
Theorem has_node_keys (h : heap) (name : string) :
  In name node_keys ->
  (forall (v : StructDecodeValue) dv, deref h (sBase v) = Ok dv ->
     Struct_JQValueHas env h v (IString name) = Ok (IBool true)) /\
  (forall (v : ArrayDecodeValue) dv, deref h (aBase v) = Ok dv ->
     Array_JQValueHas env h v (IString name) = Ok (IBool true)) /\
  (forall (v : decodeValue) dv, deref h (dvBase v) = Ok dv ->
     decodeValue_JQValueHas env h v (IString name) = Ok (IBool true)).
Proof.
  intros Hin. repeat split; intros v dv Hdv;
    unfold Struct_JQValueHas, Array_JQValueHas, decodeValue_JQValueHas;
    eapply node_key_has; eauto.
Qed.

(** X9: a key of the wrong type is answered by [HasKeyTypeError]: on a
    struct any key that is not a string, on an array any key that is
    neither an integer nor a string with the "_" prefix. *)
Theorem has_key_type_error (h : heap) (key : iface) :
  (forall v : StructDecodeValue,
     (forall s, key <> IString s) ->
     Struct_JQValueHas env h v key
     = Ok (IError (HasKeyTypeError "object" (Sprintf_v env key)))) /\
  (forall v : ArrayDecodeValue,
     (forall n, key <> IInt n) ->
     (forall s, key = IString s -> HasPrefix_ s = false) ->
     Array_JQValueHas env h v key
     = Ok (IError (HasKeyTypeError "array" (Sprintf_v env key)))).
Proof.
  split; intros v.
  - intros Hstr. unfold Struct_JQValueHas, valueHas.
    destruct key; try reflexivity. exfalso. eapply Hstr. reflexivity.
  - intros Hint Hstr. unfold Array_JQValueHas, valueHas.
    destruct key; try reflexivity.
    + exfalso. eapply Hint. reflexivity.
    + rewrite (Hstr s eq_refl). reflexivity.
Qed.

End BridgeLookup.

(** ** Iteration and conversion of compounds *)

Section BridgeCompounds.

Variable env : Env.

Lemma traverse_lookup {A B} (f : A -> result B) (l : list A) (ys : list B) :
  traverse f l = Ok ys ->
  forall j a, l !! j = Some a -> exists y, ys !! j = Some y /\ f a = Ok y.
Proof.
  revert ys. induction l as [| x l IH]; intros ys Htr j a Hj; [discriminate |].
  cbn [traverse] in Htr.
  destruct (f x) as [y |] eqn:Hx; cbn [mbind result_bind] in Htr; [| discriminate].
  destruct (traverse f l) as [ys' |]; cbn [mbind result_bind] in Htr; [| discriminate].
  injection Htr as <-.
  destruct j as [| j]; cbn in Hj |- *.
  - injection Hj as <-. eauto.
  - eapply IH; eauto.
Qed.

(** A slice within the children, written out. *)
Lemma slice_within h v start end_ :
  0 <= start <= end_ -> end_ <= slice_len (Children (aCompound v)) -> is_int64 end_ ->
  Array_JQValueSlice env h v start end_ =
  (vs ← traverse (makeDecodeValue env h)
        (take (Z.to_nat (end_ - start))
              (drop (Z.to_nat start) (elems (Children (aCompound v)))));
   Ok (ISlice vs)).
Proof.
  intros Hse Hen Hint. set (cs := Children (aCompound v)) in *.
  unfold slice_len in Hen.
  unfold Array_JQValueSlice, slice_expr. fold cs.
  rewrite (wrap64_id (end_ - start)) by (unfold is_int64 in *; lia).
  destruct (Z.ltb_spec (end_ - start) 0); [lia |].
  replace ((0 <=? start) && (start <=? end_) && (end_ <=? slice_cap cs)) with true
    by (symmetry; unfold slice_cap; rewrite !andb_true_iff, !Z.leb_le, length_app; lia).
  cbn [mbind result_bind].
  rewrite drop_app_le by lia. rewrite take_app_le by (rewrite length_drop; lia).
  reflexivity.
Qed.

(** X10: a slice within the children is made of what [index] returns:
    element [i - start] of [slice(start, end)] is [index(i)]; and the
    conversion of the array to a plain value is the slice of all its
    children, each adapted, none converted further. *)
Theorem array_slice_index (h : heap) (v : ArrayDecodeValue) (start end_ : Z)
        (vs : list iface) :
  0 <= start <= end_ ->
  end_ <= slice_len (Children (aCompound v)) ->
  is_int64 end_ ->
  Array_JQValueSlice env h v start end_ = Ok (ISlice vs) ->
  (forall i, start <= i < end_ ->
     exists x, vs !! Z.to_nat (i - start) = Some x /\
               Array_JQValueIndex env h v i = Ok x) /\
  (start = 0 -> end_ = slice_len (Children (aCompound v)) ->
   Array_JQValueToGoJQ env h v = Ok (ISlice vs)).
Proof.
  intros Hse Hen Hint Hslice.
  rewrite (slice_within h v start end_ Hse Hen Hint) in Hslice.
  set (cs := Children (aCompound v)) in *. unfold slice_len in *.
  destruct (traverse _ _) as [vs' |] eqn:Htr; cbn [mbind result_bind] in Hslice;
    [| discriminate].
  injection Hslice as <-. split.
  - intros i Hi.
    destruct (lookup_lt_is_Some_2 (elems cs) (Z.to_nat i) ltac:(lia)) as [p Hp].
    assert (Hsub : take (Z.to_nat (end_ - start)) (drop (Z.to_nat start) (elems cs))
                   !! Z.to_nat (i - start) = Some p).
    { rewrite lookup_take_lt by lia. rewrite lookup_drop.
      replace (Z.to_nat start + Z.to_nat (i - start))%nat with (Z.to_nat i) by lia.
      exact Hp. }
    destruct (traverse_lookup _ _ _ Htr _ _ Hsub) as (x & Hx & Hmk).
    exists x. split; [exact Hx |].
    unfold Array_JQValueIndex, index_expr. fold cs. unfold slice_len.
    destruct (Z.ltb_spec i 0); [lia |].
    replace ((0 <=? i) && (i <? Z.of_nat (length (elems cs)))) with true
      by (symmetry; rewrite andb_true_iff, Z.leb_le, Z.ltb_lt; lia).
    rewrite Hp. exact Hmk.
  - intros -> ->. unfold Array_JQValueToGoJQ. fold cs.
    rewrite Z.sub_0_r, Nat2Z.id in Htr. change (Z.to_nat 0) with 0%nat in Htr.
    rewrite drop_0, firstn_all in Htr. rewrite Htr. reflexivity.
Qed.

Lemma array_props_spec h cs : forall i props,
  array_props env h i cs = Ok props ->
  map fst props = map (fun k => IInt (Z.of_nat k)) (seq i (length cs)) /\
  traverse (makeDecodeValue env h) cs = Ok (map snd props).
Proof.
  induction cs as [| f cs IH]; intros i props; cbn [array_props traverse].
  - intros [= <-]. split; reflexivity.
  - destruct (makeDecodeValue env h f) as [x |]; cbn [mbind result_bind]; [| discriminate].
    destruct (array_props env h (S i) cs) as [ps |] eqn:Hps; cbn [mbind result_bind];
      [| discriminate].
    intros [= <-]. destruct (IH (S i) ps Hps) as [Hk Hv].
    rewrite Hv. cbn. rewrite Hk. split; reflexivity.
Qed.

(** X11: [each] on an array value pairs the keys with the adapted
    children, in order: its paths are what [keys] returns and its values
    what the conversion to a plain value returns. *)
Theorem array_each_keys_values (h : heap) (v : ArrayDecodeValue)
        (props : list (iface * iface)) :
  Array_JQValueEach env h v = Ok props ->
  Array_JQValueKeys v = ISlice (map fst props) /\
  Array_JQValueToGoJQ env h v = Ok (ISlice (map snd props)).
Proof.
  unfold Array_JQValueEach. intros Hp.
  destruct (array_props_spec h _ _ _ Hp) as [Hk Hv].
  unfold Array_JQValueKeys, Array_JQValueToGoJQ. rewrite Hk, Hv. split; reflexivity.
Qed.

Lemma struct_props_spec h cs : forall props,
  struct_props env h cs = Ok props ->
  traverse (fun f => fv ← deref h f; Ok (IString (VName fv))) cs = Ok (map fst props) /\
  traverse (makeDecodeValue env h) cs = Ok (map snd props) /\
  length props = length cs.
Proof.
  induction cs as [| f cs IH]; intros props; cbn [struct_props traverse].
  - intros [= <-]. repeat split; reflexivity.
  - destruct (deref h f) as [fv |]; cbn [mbind result_bind]; [| discriminate].
    destruct (makeDecodeValue env h f) as [x |]; cbn [mbind result_bind]; [| discriminate].
    destruct (struct_props env h cs) as [ps |] eqn:Hps; cbn [mbind result_bind];
      [| discriminate].
    intros [= <-]. destruct (IH ps eq_refl) as (Hk & Hv & Hl).
    rewrite Hk, Hv. cbn [length]. rewrite Hl. repeat split; reflexivity.
Qed.

(** X12: [each] on a struct value pairs the child names with the
    adapted children, in order, one pair a child: a name that occurs
    twice is paired twice, and the pairs are as many as [length]. *)
Theorem struct_each_keys_values (h : heap) (v : StructDecodeValue)
        (props : list (iface * iface)) :
  Struct_JQValueEach env h v = Ok props ->
  Struct_JQValueKeys h v = Ok (ISlice (map fst props)) /\
  traverse (makeDecodeValue env h) (elems (Children (sCompound v)))
  = Ok (map snd props) /\
  Struct_JQValueLength v = IInt (Z.of_nat (length props)).
Proof.
  unfold Struct_JQValueEach. intros Hp.
  destruct (struct_props_spec h _ _ Hp) as (Hk & Hv & Hl).
  unfold Struct_JQValueKeys, Struct_JQValueLength, slice_len. rewrite Hk, Hl.
  repeat split. exact Hv.
Qed.

End BridgeCompounds.

(** ** A struct as a plain map *)

Section StructToPlain.

Variable env : Env.

Lemma assoc_set_fst k x m k' :
  In k' (map fst (assoc_set k x m)) <-> k' = k \/ In k' (map fst m).
Proof.
  induction m as [| [k0 y] m IH]; cbn [assoc_set map fst In].
  - intuition congruence.
  - destruct (String.eqb_spec k0 k) as [-> | Hne]; cbn [map fst In].
    + intuition congruence.
    + rewrite IH. intuition congruence.
Qed.

Lemma assoc_set_nodup k x m :
  List.NoDup (map fst m) -> List.NoDup (map fst (assoc_set k x m)).
Proof.
  induction m as [| [k0 y] m IH]; cbn [assoc_set map fst]; intros Hnd.
  - constructor; [intros [] | constructor].
  - apply List.NoDup_cons_iff in Hnd as [Hnotin Hnd].
    destruct (String.eqb_spec k0 k) as [-> | Hne]; cbn [map fst].
    + apply List.NoDup_cons_iff. auto.
    + apply List.NoDup_cons_iff. split; [| auto].
      rewrite assoc_set_fst. intros [-> | Hin]; auto.
Qed.

Lemma assoc_set_length k x m : (length (assoc_set k x m) <= S (length m))%nat.
Proof.
  induction m as [| [k0 y] m IH]; cbn [assoc_set length]; [lia |].
  destruct (String.eqb k0 k); cbn [length]; lia.
Qed.

Lemma assoc_get_set k x m k' :
  assoc_get k' (assoc_set k x m) = if String.eqb k k' then Some x else assoc_get k' m.
Proof.
  induction m as [| [k0 y] m IH]; cbn [assoc_set assoc_get].
  - reflexivity.
  - destruct (String.eqb_spec k0 k) as [-> | Hne]; cbn [assoc_get].
    + destruct (String.eqb k k'); reflexivity.
    + rewrite IH. destruct (String.eqb_spec k0 k') as [-> | Hne'].
      * destruct (String.eqb_spec k k'); [congruence | reflexivity].
      * reflexivity.
Qed.

Lemma struct_entries_keys h cs : forall acc vm ks,
  struct_entries env h cs acc = Ok vm ->
  traverse (fun f => fv ← deref h f; Ok (IString (VName fv))) cs = Ok ks ->
  (forall k, In k (map fst vm) <-> In k (map fst acc) \/ In (IString k) ks) /\
  (List.NoDup (map fst acc) -> List.NoDup (map fst vm)) /\
  (length vm <= length acc + length ks)%nat.
Proof.
  induction cs as [| f cs IH]; intros acc vm ks; cbn [struct_entries traverse].
  - intros [= <-] [= <-]. cbn. intuition; lia.
  - destruct (deref h f) as [fv |]; cbn [mbind result_bind]; [| discriminate].
    destruct (makeDecodeValue env h f) as [x |]; cbn [mbind result_bind]; [| discriminate].
    destruct (traverse _ cs) as [ks' |] eqn:Hks; cbn [mbind result_bind]; [| discriminate].
    intros Hvm [= <-].
    destruct (IH _ _ _ Hvm eq_refl) as (Hin & Hnd & Hlen).
    split; [| split].
    + intros k. rewrite Hin, assoc_set_fst. cbn [In].
      split; [intros [[-> | ?] | ?] | intros [? | [[= ->] | ?]]]; auto.
    + intros Hacc. apply Hnd, assoc_set_nodup, Hacc.
    + pose proof (assoc_set_length (VName fv) x acc). cbn [length]. lia.
Qed.

(** X13: the plain map made of a struct value has one entry a child
    name: its keys are the names [keys] lists, each once, so it has at
    most as many entries as the struct has children. *)
Theorem struct_to_plain_keys (h : heap) (v : StructDecodeValue)
        (vm : list (string * iface)) (ks : list iface) :
  Struct_JQValueToGoJQ env h v = Ok (IMap vm) ->
  Struct_JQValueKeys h v = Ok (ISlice ks) ->
  List.NoDup (map fst vm) /\
  (forall k, In k (map fst vm) <-> In (IString k) ks) /\
  (length vm <= length ks)%nat.
Proof.
  unfold Struct_JQValueToGoJQ, Struct_JQValueKeys.
  destruct (struct_entries env h _ []) as [vm' |] eqn:Hvm; cbn [mbind result_bind];
    [| discriminate].
  destruct (traverse _ _) as [ks' |] eqn:Hks; cbn [mbind result_bind]; [| discriminate].
  intros [= <-] [= <-].
  destruct (struct_entries_keys h _ _ _ _ Hvm Hks) as (Hin & Hnd & Hlen).
  split; [apply Hnd; constructor |]. split; [| exact Hlen].
  intros k. rewrite Hin. cbn. tauto.
Qed.

Lemma struct_entries_app h pre rest : forall acc vm,
  struct_entries env h (pre ++ rest) acc = Ok vm ->
  exists mid, struct_entries env h pre acc = Ok mid /\
              struct_entries env h rest mid = Ok vm.
Proof.
  induction pre as [| p pre IH]; intros acc vm; cbn [app struct_entries].
  - eauto.
  - destruct (deref h p) as [pv |]; cbn [mbind result_bind]; [| discriminate].
    destruct (makeDecodeValue env h p) as [x |]; cbn [mbind result_bind]; [| discriminate].
    apply IH.
Qed.

Lemma struct_entries_other h k post : forall acc vm,
  struct_entries env h post acc = Ok vm ->
  Forall (fun p => exists pv, deref h p = Ok pv /\ VName pv <> k) post ->
  assoc_get k vm = assoc_get k acc.
Proof.
  induction post as [| p post IH]; intros acc vm; cbn [struct_entries].
  - intros [= <-] _. reflexivity.
  - intros Hvm Hall. apply Forall_cons in Hall as [(pv & Hp & Hne) Hall].
    rewrite Hp in Hvm. cbn [mbind result_bind] in Hvm.
    destruct (makeDecodeValue env h p) as [x |]; cbn [mbind result_bind] in Hvm;
      [| discriminate].
    rewrite (IH _ _ Hvm Hall), assoc_get_set.
    destruct (String.eqb_spec (VName pv) k); [contradiction | reflexivity].
Qed.

(** X14: where several children of a struct carry one name, the plain
    map keeps the last of them under that name (the key lookup of X6
    gives the first). *)
Theorem struct_to_plain_last (h : heap) (v : StructDecodeValue) (k : string)
        (pre post : list ptr) (f : ptr) (fv : Value) (x : iface)
        (vm : list (string * iface)) :
  elems (Children (sCompound v)) = (pre ++ f :: post)%list ->
  deref h f = Ok fv -> VName fv = k ->
  makeDecodeValue env h f = Ok x ->
  Forall (fun p => exists pv, deref h p = Ok pv /\ VName pv <> k) post ->
  Struct_JQValueToGoJQ env h v = Ok (IMap vm) ->
  assoc_get k vm = Some x.
Proof.
  intros Hel Hf Hk Hx Hpost. unfold Struct_JQValueToGoJQ. rewrite Hel.
  destruct (struct_entries env h _ []) as [vm' |] eqn:Hvm; cbn [mbind result_bind];
    [| discriminate].
  intros [= <-].
  destruct (struct_entries_app h pre (f :: post) _ _ Hvm) as (mid & _ & Hrest).
  cbn [struct_entries] in Hrest. rewrite Hf, Hx in Hrest. cbn [mbind result_bind] in Hrest.
  rewrite (struct_entries_other h k post _ _ Hrest Hpost), assoc_get_set, Hk.
  now rewrite String.eqb_refl.
Qed.

(** X15: what a node of the heap is adapted to is a decode value in the
    sense of [_is_decode_value], with two exceptions, both scalars: a
    byte sequence, which becomes a buffer range, and a bit buffer that
    could not be copied, which becomes the error. *)
Theorem adapted_is_decode_value (h : heap) (p : ptr) (dv : Value) (x : iface) :
  deref h p = Ok dv ->
  makeDecodeValue env h p = Ok x ->
  (_isDecodeValue x = false <->
   exists sc, V dv = VScalar sc /\
     ((exists bs, Scalar_Value env sc = GoBytes bs) \/
      (exists b err, Scalar_Value env sc = GoBuffer b /\ copyString env b = inr err))).
Proof.
  intros Hdv. unfold makeDecodeValue, scalarValue. rewrite Hdv. cbn [mbind result_bind].
  destruct (V dv) as [vv | vv].
  - destruct (IsArray vv); intros [= <-]; (split; [discriminate | intros (sc & [=] & _)]).
  - destruct (Scalar_Value env vv) eqn:Hval;
      try (intros [= <-]; split; [discriminate |];
           intros (sc & [= <-] & [[? E] | (? & ? & E & _)]); congruence).
    + destruct (copyString env bb) as [s | err] eqn:Hcopy; intros [= <-].
      * split; [discriminate |].
        intros (sc & [= <-] & [[? E] | (? & ? & E & Hc)]); [congruence |].
        rewrite Hval in E. injection E as <-. congruence.
      * split; [intros _ | reflexivity]. exists vv. split; [reflexivity |].
        right. eauto.
    + intros [= <-]. split; [intros _ | reflexivity].
      exists vv. split; [reflexivity |]. left. eauto.
Qed.

End StructToPlain.

(** ** The runs of [_decode] *)

Section DecodeRuns.

Variable env : Env.

Lemma decode_fst c a0 a1 h :
  fst (_decode env c a0 a1 h) = fst (decode_run env (effective_opts env c a1) c a0 h).
Proof.
  unfold _decode, effective_opts.
  destruct c; try reflexivity.
  cbn [oProgress].
  destruct (negb (String.eqb (oProgress (mapstructure_Decode env a1 zero_opts)) ""));
    [| reflexivity].
  destruct (decode_run env _ (IOpenFile f) a0 h) as [[res h'] log]. reflexivity.
Qed.

Lemma decode_run_no_progress opts c a0 h :
  Forall (fun e => is_progress_event e = false) (snd (decode_run env opts c a0 h)).
Proof.
  unfold decode_run.
  destruct (toBufferView env c) as [bv | err]; [| constructor].
  destruct (toString env a0) as [formatName [err |]]; [constructor |].
  destruct (registry_Group env formatName) as [group | err]; [| constructor].
  destruct (decode_Decode env h (brBuf bv) group (decode_options opts bv)) as [[h' dv] err].
  repeat constructor.
Qed.

(** X16: when the input is no buffer, the format name no string or the
    format group unknown, [_decode] returns the error (wrapped with the
    format name in the last two cases), runs no decoder and leaves the
    heap as it was. *)
Theorem decode_unresolved (c a0 a1 : iface) (h : heap) :
  (forall err, toBufferView env c = inr err ->
     decode_result env c a0 a1 h = Ok (IError err) /\
     decode_heap env c a0 a1 h = h /\
     decode_calls (decode_log env c a0 a1 h) = []) /\
  (forall bv formatName err,
     toBufferView env c = inl bv ->
     toString env a0 = (formatName, Some err) ->
     decode_result env c a0 a1 h = Ok (IError (wrapError formatName err)) /\
     decode_heap env c a0 a1 h = h /\
     decode_calls (decode_log env c a0 a1 h) = []) /\
  (forall bv formatName err,
     toBufferView env c = inl bv ->
     toString env a0 = (formatName, None) ->
     registry_Group env formatName = inr err ->
     decode_result env c a0 a1 h = Ok (IError (wrapError formatName err)) /\
     decode_heap env c a0 a1 h = h /\
     decode_calls (decode_log env c a0 a1 h) = []).
Proof.
  unfold decode_result, decode_heap.
  rewrite decode_log_calls, decode_run_calls, decode_fst. unfold decode_run.
  split; [| split].
  - intros err ->. auto.
  - intros bv formatName err -> ->. auto.
  - intros bv formatName err -> -> ->. auto.
Qed.

(** X17: on an open file with a progress expression, the progress
    function is installed before anything else and, whatever the run
    comes to, removed at the end, after which the expression is
    evaluated once on nil; in between no progress event occurs.  On any
    other input, or without a progress expression, the log has no
    progress event at all. *)
Theorem decode_progress_bracket (c a0 a1 : iface) (h : heap) :
  let expr := oProgress (mapstructure_Decode env a1 zero_opts) in
  (forall bbf, c = IOpenFile bbf -> expr <> "" ->
     exists middle,
       decode_log env c a0 a1 h =
       (SetProgressFn bbf (Some expr) :: middle ++
        [SetProgressFn bbf None; EvalProgress INil expr])%list /\
       Forall (fun e => is_progress_event e = false) middle) /\
  ((forall bbf, c = IOpenFile bbf -> expr = "") ->
   Forall (fun e => is_progress_event e = false) (decode_log env c a0 a1 h)).
Proof.
  intros expr. split.
  - intros bbf -> Hexpr. unfold decode_log, _decode. cbn [oProgress]. fold expr.
    destruct (String.eqb_spec expr ""); [contradiction |]. cbn [negb].
    pose proof (decode_run_no_progress
                  (mkDecodeOpts (filename bbf)
                                (oForce (mapstructure_Decode env a1 zero_opts)) expr
                                (oRemain (mapstructure_Decode env a1 zero_opts)))
                  (IOpenFile bbf) a0 h) as Hrun.
    destruct (decode_run env _ (IOpenFile bbf) a0 h) as [[res h'] log].
    cbn [snd] in *. exists log. split; [reflexivity | exact Hrun].
  - intros Hno. unfold decode_log, _decode.
    destruct c; try apply decode_run_no_progress.
    cbn [oProgress]. fold expr. rewrite (Hno f eq_refl). cbn [String.eqb negb].
    apply decode_run_no_progress.
Qed.

(** X18: when the arguments resolve, [_decode] leaves the heap the
    decoder returns; a nil tree is answered by a [valueError], which
    holds the values of the format errors when the decoder's error is a
    [FormatsError] and the error itself otherwise, and a tree by the
    adaptation of its root on the new heap. *)
Theorem decode_outcome (c a0 a1 : iface) (h h' : heap) (bv : BufferRange)
        (formatName : string) (group : list Format) (dv : ptr) (err : option error) :
  toBufferView env c = inl bv ->
  toString env a0 = (formatName, None) ->
  registry_Group env formatName = inl group ->
  decode_Decode env h (brBuf bv) group (decode_options (effective_opts env c a1) bv)
  = (h', dv, err) ->
  decode_heap env c a0 a1 h = h' /\
  (forall a, dv = Some a ->
     decode_result env c a0 a1 h = makeDecodeValue env h' (Some a)) /\
  (dv = None ->
     exists x, decode_result env c a0 a1 h = Ok (IValueError x) /\
       (forall e errs, err = Some e -> as_FormatsError e = Some errs ->
          x = ISlice (map (FormatError_Value env) errs)) /\
       (forall e, err = Some e -> as_FormatsError e = None -> x = IError e) /\
       (err = None -> x = INil)).
Proof.
  intros Hbv Hname Hgroup Hdec. unfold decode_result, decode_heap.
  rewrite decode_fst. unfold decode_run. rewrite Hbv, Hname, Hgroup, Hdec.
  cbn [fst snd]. split; [reflexivity |]. split.
  - intros a ->. reflexivity.
  - intros ->. destruct err as [e |].
    + destruct (as_FormatsError e) as [errs |] eqn:He; eexists; (split; [reflexivity |]);
        repeat split; try congruence; intros ? ? [= <-]; congruence.
    + eexists. split; [reflexivity |]. repeat split; congruence.
Qed.

(** X19: the keys [ExtKeys] lists are keys of the reserved table; for a
    compound they are the whole table; for a scalar "_error" and
    "_format" are left out of the list and answered all the same,
    "_error" by nil and "_format" by nil or "json". *)
Theorem extkeys_listed_and_answered (h : heap) (dvb : ptr) (dv : Value)
        (ks : list string) :
  deref h dvb = Ok dv ->
  ExtKeys h dvb = Ok ks ->
  (forall k, In k ks -> In k reserved_extkeys) /\
  (forall vv, V dv = VCompound vv -> forall k, In k reserved_extkeys -> In k ks) /\
  (forall sc, V dv = VScalar sc ->
     ~ In "_error" ks /\ ~ In "_format" ks /\
     decodeValueBase_JQValueKey env h dvb "_error" = Ok INil /\
     (decodeValueBase_JQValueKey env h dvb "_format" = Ok INil \/
      decodeValueBase_JQValueKey env h dvb "_format" = Ok (IString "json"))).
Proof.
  intros Hdv. unfold ExtKeys, decodeValueBase_JQValueKey.
  cbn [String.eqb Ascii.eqb Bool.eqb]. rewrite Hdv. cbn [mbind result_bind].
  destruct (V dv) as [vv | sc]; cbn [is_compound]; intros [= <-].
  - split; [cbn; tauto |]. split; [intros _ _ k; cbn; tauto | intros sc [=]].
  - split; [cbn; tauto |]. split; [intros vv [=] |].
    intros sc' [= <-]. split; [cbn; intuition discriminate |].
    split; [cbn; intuition discriminate |]. split; [reflexivity |].
    destruct (Actual sc); auto.
Qed.

End DecodeRuns.

(** ** The structs of an access unit *)

Section AvcAUShape.

Variable avcNALUFormat : list Format.

Lemma try_formats_won inArg b p len f d' : forall fs errs,
  try_formats fs inArg b p len errs = Won f d' -> In f fs.
Proof.
  induction fs as [| g fs IH]; intros errs; cbn [try_formats]; [discriminate |].
  destruct (run_candidate g inArg b p len).
  - intros [= <- <-]. now left.
  - intros H. right. eapply IH, H.
  - discriminate.
Qed.

Lemma nalu_body_shape avcIn d d' :
  nalu_body avcNALUFormat avcIn d = Done tt d' ->
  exists t, fields d' = (fields d ++ [t])%list /\
            nalu_shape avcNALUFormat (bits d)
                       (wrap64 (wrap64 (LengthSize avcIn) * 8)) t.
Proof.
  intros Hdone.
  unfold nalu_body, FieldStruct, field_compound in Hdone.
  destruct (name_taken "nalu" d); [discriminate |].
  unfold bind, FieldU in Hdone.
  cbn [name_taken in_array fields negb existsb andb pos scope_end bits] in Hdone.
  set (w := wrap64 (wrap64 (LengthSize avcIn) * 8)) in *.
  destruct ((w <? 0) || (64 <? w) || (scope_end d - pos d <? w)); [discriminate |].
  unfold FieldFormatLen, append_field in Hdone.
  cbn [name_taken in_array fields negb existsb andb pos scope_end bits app tree_name]
    in Hdone.
  replace (String.eqb "length" "nalu") with false in Hdone by reflexivity.
  cbn [orb andb] in Hdone.
  set (l := read_u (bits d) (pos d) w) in Hdone.
  set (L := wrap64 (wrap64 l * 8)) in Hdone.
  destruct ((L <? 0) || (scope_end d - (pos d + w) <? L)) eqn:HL; [discriminate |].
  rewrite !orb_false_iff, !Z.ltb_ge in HL. destruct HL as [HL0 HLfit].
  destruct (try_formats avcNALUFormat InNil (bits d) (pos d + w) L []) as [f s | errs |]
    eqn:Htry; [| | discriminate]; cbn [pos fields cur_err app] in Hdone;
    injection Hdone as <-; cbn [fields]; eexists; (split; [reflexivity |]);
    exists (pos d); eexists _, _; cbv zeta; fold l; fold L;
    (split; [f_equal; f_equal; lia |]); (split; [exact HL0 |]).
  - left. split; [reflexivity |]. exists f, s. split; [| reflexivity].
    eapply try_formats_won, Htry.
  - right. split; [reflexivity |]. eauto.
Qed.

Lemma nalu_loop_shape avcIn fuel : forall d d',
  nalu_loop avcNALUFormat fuel avcIn d = Done tt d' ->
  bits d' = bits d /\
  exists new, fields d' = (fields d ++ new)%list /\
              Forall (nalu_shape avcNALUFormat (bits d)
                                 (wrap64 (wrap64 (LengthSize avcIn) * 8))) new.
Proof.
  induction fuel as [| fuel IH]; intros d d' Hdone.
  - cbn [nalu_loop] in Hdone. unfold NotEnd in Hdone.
    destruct (pos d <? scope_end d); [discriminate |]. injection Hdone as <-.
    split; [reflexivity |]. exists []. rewrite app_nil_r. split; [reflexivity | constructor].
  - rewrite nalu_loop_step in Hdone.
    destruct (pos d <? scope_end d).
    + unfold bind in Hdone.
      destruct (nalu_body avcNALUFormat avcIn d) as [[] d1 | e |] eqn:Hbody;
        try discriminate.
      destruct (nalu_body_shape avcIn d d1 Hbody) as (t & Hf1 & Ht).
      assert (Hb1 : bits d1 = bits d).
      { clear -Hbody. unfold nalu_body, FieldStruct, field_compound in Hbody.
        destruct (name_taken "nalu" d); [discriminate |].
        destruct (bind _ _ _); try discriminate.
        injection Hbody as <-. reflexivity. }
      destruct (IH d1 d' Hdone) as (Hb & new & Hnew & Hall).
      rewrite Hb1 in *. split; [exact Hb |].
      exists (t :: new). rewrite Hnew, Hf1, <- app_assoc. split; [reflexivity |].
      constructor; assumption.
    + injection Hdone as <-.
      split; [reflexivity |]. exists []. rewrite app_nil_r. split; [reflexivity | constructor].
Qed.

(** X20: in the tree of a completed [avc_au] decode every child of the
    root is a struct [nalu] that begins with the scalar [length] read
    from the input at the start of the struct, and spans the length
    field and eight times that length; it then holds the sub-decode
    [nalu] over exactly those bits, won by one of the [avc_nalu]
    candidates, or, when all candidates failed, nothing more and their
    errors. *)
Theorem avc_au_nalu_shapes (fuel : nat) (avcIn : AvcIn) (input : Buffer)
        (t : Tree) (d' : D) :
  decode_root (avc_au avcNALUFormat fuel) (InAvcIn avcIn) input = Done t d' ->
  exists range nalus err fmt,
    t = Node "access_unit" range true nalus err fmt /\
    Forall (nalu_shape avcNALUFormat input
                       (wrap64 (wrap64 (LengthSize avcIn) * 8))) nalus.
Proof.
  unfold decode_root, avc_au, avcAUDecode.
  cbn [DecodeFn RootArray RootName Name]. unfold bind, ret.
  set (d0 := mkD input 0 _ true [] None).
  destruct (nalu_loop avcNALUFormat fuel avcIn d0) as [[] d1 | e |] eqn:Hloop;
    try discriminate.
  intros [= <- <-].
  destruct (nalu_loop_shape avcIn fuel d0 d1 Hloop) as (_ & new & Hnew & Hall).
  cbn [fields app bits d0] in *.
  eexists _, _, _, _. split; [reflexivity |]. rewrite Hnew. exact Hall.
Qed.

End AvcAUShape.

(** ** Metadata keys and plain values *)

Section BridgeMetadata.

Variable env : Env.

(** X21: "_parent" is nil exactly on a node without parent, the root;
    on any other node it is the adaptation of the parent. *)
Theorem parent_key (h : heap) (dvb : ptr) (dv : Value) :
  deref h dvb = Ok dv ->
  (forall a, Parent dv = Some a -> exists pv, deref h (Some a) = Ok pv) ->
  (decodeValueBase_JQValueKey env h dvb "_parent" = Ok INil <-> Parent dv = None) /\
  (forall a, Parent dv = Some a ->
     decodeValueBase_JQValueKey env h dvb "_parent" = makeDecodeValue env h (Some a)).
Proof.
  intros Hdv Hparent. unfold decodeValueBase_JQValueKey.
  cbn [String.eqb Ascii.eqb Bool.eqb]. rewrite Hdv. cbn [mbind result_bind].
  destruct (Parent dv) as [a |].
  - destruct (Hparent a eq_refl) as [pv Hpv].
    destruct (makeDecodeValue_not_nil env h (Some a) pv Hpv) as (x & Hx & Hnil).
    split; [| intros ? [= <-]; reflexivity].
    rewrite Hx. split; [intros [= E]; congruence | discriminate].
  - split; [tauto | discriminate].
Qed.

(** X22: on a compound "_actual" and "_sym" are nil and "_unknown" is
    false; "_description" is nil exactly when the description of the
    node, compound or scalar, is empty, and the description otherwise. *)
Theorem compound_metadata (h : heap) (dvb : ptr) (dv : Value) :
  deref h dvb = Ok dv ->
  (forall vv, V dv = VCompound vv ->
     decodeValueBase_JQValueKey env h dvb "_actual" = Ok INil /\
     decodeValueBase_JQValueKey env h dvb "_sym" = Ok INil /\
     decodeValueBase_JQValueKey env h dvb "_unknown" = Ok (IBool false)) /\
  (let description := match V dv with
                      | VCompound vv => CDescription vv
                      | VScalar vv => SDescription vv
                      end in
   (decodeValueBase_JQValueKey env h dvb "_description" = Ok INil <-> description = "") /\
   (description <> "" ->
    decodeValueBase_JQValueKey env h dvb "_description" = Ok (IString description))).
Proof.
  intros Hdv. unfold decodeValueBase_JQValueKey.
  cbn [String.eqb Ascii.eqb Bool.eqb]. rewrite Hdv. cbn [mbind result_bind].
  split.
  - intros vv ->. auto.
  - cbv zeta. unfold description_value.
    destruct (V dv) as [vv | vv];
      match goal with
      | |- context [String.eqb ?s ""] => destruct (String.eqb_spec s "") as [-> | Hne]
      end;
      (split; [split; [try reflexivity; intros [=] | try reflexivity; contradiction]
              | try reflexivity; intros; congruence]).
Qed.

(** X23: where the inner range of a node is its range, "_bytes" is the
    buffer view of the node, and "_bits" the same range of the same
    buffer at unit 1. *)
Theorem bytes_is_buffer_view (h : heap) (dvb : ptr) (dv : Value) :
  deref h dvb = Ok dv ->
  Value_InnerRange env dv = VRange dv ->
  exists bv,
    ToBufferView env h dvb = Ok bv /\
    decodeValueBase_JQValueKey env h dvb "_bytes" = Ok (IBufferRange bv) /\
    decodeValueBase_JQValueKey env h dvb "_bits"
    = Ok (IBufferRange (mkBufferRange (brBuf bv) (brRange bv) 1)) /\
    brUnit bv = 8.
Proof.
  intros Hdv Hinner. unfold ToBufferView, decodeValueBase_JQValueKey.
  cbn [String.eqb Ascii.eqb Bool.eqb]. rewrite Hdv. cbn [mbind result_bind].
  rewrite Hinner. eexists. repeat split.
Qed.

(** X24: [toValue] returns a plain value unchanged and converts every
    decode value: whenever it returns on one of them the flag is true;
    a scalar that is not marked as bits is converted without reading
    the heap, so also when its node is gone. *)
Theorem toValue_ok (h : heap) (optsFn : unit -> Options) (v : iface) :
  (is_plain v = true -> toValue env h optsFn v = Ok (v, true)) /\
  (_isDecodeValue v = true ->
   forall x ok, toValue env h optsFn v = Ok (x, ok) -> ok = true) /\
  (forall j p,
     v = IDecodeValue (mkDecodeValue j p false) ->
     toValue env h optsFn v = Ok (JQValue_JQValueToGoJQ env j, true)).
Proof.
  split; [| split].
  - destruct v; try discriminate; reflexivity.
  - destruct v; try discriminate; intros _ x ok; unfold toValue;
      match goal with
      | |- context [mbind _ ?m] => destruct m; cbn [mbind result_bind]
      end; intros [=]; congruence.
  - intros j p ->. reflexivity.
Qed.

End BridgeMetadata.

(** ** The further properties on the sample input and tree *)

Lemma nalu_header_returns : candidates_return [sample.nalu_header].
Proof.
  intros f inArg d0 [<- | []]. cbn [DecodeFn sample.nalu_header].
  unfold decode.bind, FieldU.
  destruct (name_taken "header" d0); [discriminate |].
  destruct (_ || _ || _); discriminate.
Defined.

Lemma avc_au_covers_input_witness :
  exists nalus,
    sample.s1_tree
    = Node "access_unit" (mkRange 0 (Z.of_nat (length sample.s1_input))) true nalus None
           (Some "avc_au") /\
    Forall (is_struct_named "nalu") nalus /\
    tiles 0 nalus (Z.of_nat (length sample.s1_input)).
Proof.
  apply (avc_au_covers_input [sample.nalu_header] 2 (mkAvcIn 4) sample.s1_input
                             sample.s1_tree sample.s1_final).
  vm_compute. reflexivity.
Defined.

Lemma avc_au_terminates_witness :
  avcAUDecode [sample.nalu_header] 120 (InAvcIn (mkAvcIn 4)) sample.s1_start <> OutOfFuel.
Proof.
  apply (avc_au_terminates [sample.nalu_header] 120 (InAvcIn (mkAvcIn 4)) sample.s1_start).
  - exact nalu_header_returns.
  - intros avcIn [= <-]. vm_compute. discriminate.
  - vm_compute. discriminate.
Defined.

Lemma avc_au_truncated_witness :
  avcAUDecode [sample.nalu_header] 1 (InAvcIn (mkAvcIn 4)) sample.short_start
  = Aborted (ErrRange 0).
Proof.
  apply (proj1 (avc_au_truncated [sample.nalu_header] 0 (mkAvcIn 4) sample.short_start
                                 ltac:(cbn; lia) eq_refl ltac:(cbn; lia) ltac:(cbn; lia))).
  cbn. lia.
Defined.

Lemma avc_au_nalu_shapes_witness :
  exists range nalus err fmt,
    sample.s1_tree = Node "access_unit" range true nalus err fmt /\
    Forall (nalu_shape [sample.nalu_header] sample.s1_input
                       (wrap64 (wrap64 (LengthSize (mkAvcIn 4)) * 8))) nalus.
Proof.
  apply (avc_au_nalu_shapes [sample.nalu_header] 2 (mkAvcIn 4) sample.s1_input
                            sample.s1_tree sample.s1_final).
  vm_compute. reflexivity.
Defined.

Lemma items_allocated :
  allocated sample.tree_heap (elems (Children (aCompound sample.items_value))).
Proof. repeat constructor; eexists; reflexivity. Defined.

Lemma array_has_iff_keys_witness :
  exists b,
    Array_JQValueHas sample.env sample.tree_heap sample.items_value (IInt 1)
    = Ok (IBool b) /\
    (b = true <-> In (IInt 1) [IInt 0; IInt 1]) /\
    (b = true <-> 0 <= 1 < slice_len (Children (aCompound sample.items_value))).
Proof.
  apply (array_has_iff_keys sample.env sample.tree_heap sample.items_value 1
                            [IInt 0; IInt 1]).
  reflexivity.
Defined.

Lemma array_index_iff_has_witness :
  Array_JQValueHas sample.env sample.tree_heap sample.items_value (IInt 2)
  = Ok (IBool true) <->
  exists x, Array_JQValueIndex sample.env sample.tree_heap sample.items_value 2 = Ok x /\
            x <> INil.
Proof.
  apply (array_index_iff_has sample.env sample.tree_heap sample.items_value 2).
  exact items_allocated.
Defined.

Lemma struct_key_lookup_witness :
  Struct_JQValueKey sample.env sample.tree_heap sample.hdr_value "missing" = Ok INil <->
  ~ In (IString "missing") [IString "version"; IString "data"; IString "blob"].
Proof.
  apply (struct_key_lookup sample.env sample.tree_heap sample.hdr_value "missing"
                           [IString "version"; IString "data"; IString "blob"]);
    reflexivity.
Defined.

Lemma has_unreserved_extkey_error_witness :
  Array_JQValueHas sample.env sample.tree_heap sample.items_value (IString "_size")
  = Ok (IError (expectedExtkeyError "_size")).
Proof.
  apply (has_unreserved_extkey_error sample.env sample.tree_heap "_size").
  - reflexivity.
  - cbn. intuition discriminate.
Defined.

Lemma has_node_keys_witness :
  Struct_JQValueHas sample.env sample.tree_heap sample.hdr_value (IString "_len")
  = Ok (IBool true).
Proof.
  apply (proj1 (has_node_keys sample.env sample.tree_heap "_len"
                              ltac:(cbn; tauto)) sample.hdr_value sample.hdr_node).
  reflexivity.
Defined.

Lemma has_key_type_error_witness :
  Struct_JQValueHas sample.env sample.tree_heap sample.hdr_value (IInt 0)
  = Ok (IError (HasKeyTypeError "object" "?")).
Proof.
  apply (proj1 (has_key_type_error sample.env sample.tree_heap (IInt 0))).
  intros s. discriminate.
Defined.

Lemma array_slice_index_witness :
  exists x, sample.items_adapted !! Z.to_nat (1 - 0) = Some x /\
            Array_JQValueIndex sample.env sample.tree_heap sample.items_value 1 = Ok x.
Proof.
  apply (proj1 (array_slice_index sample.env sample.tree_heap sample.items_value 0 2
                  sample.items_adapted ltac:(lia) ltac:(vm_compute; discriminate)
                  ltac:(unfold is_int64; lia) eq_refl) 1).
  lia.
Defined.

Lemma array_each_keys_values_witness :
  Array_JQValueKeys sample.items_value = ISlice (map fst sample.items_props) /\
  Array_JQValueToGoJQ sample.env sample.tree_heap sample.items_value
  = Ok (ISlice (map snd sample.items_props)).
Proof.
  apply (array_each_keys_values sample.env sample.tree_heap sample.items_value
                                sample.items_props).
  reflexivity.
Defined.

Lemma struct_each_keys_values_witness :
  Struct_JQValueKeys sample.tree_heap sample.hdr_value
  = Ok (ISlice (map fst sample.hdr_props)) /\
  traverse (makeDecodeValue sample.env sample.tree_heap)
           (elems (Children (sCompound sample.hdr_value)))
  = Ok (map snd sample.hdr_props) /\
  Struct_JQValueLength sample.hdr_value = IInt (Z.of_nat (length sample.hdr_props)).
Proof.
  apply (struct_each_keys_values sample.env sample.tree_heap sample.hdr_value
                                 sample.hdr_props).
  reflexivity.
Defined.

Lemma struct_to_plain_keys_witness :
  List.NoDup (map fst sample.dup_plain) /\
  (forall k, In k (map fst sample.dup_plain) <->
             In (IString k) [IString "version"; IString "data"; IString "version"]) /\
  (length sample.dup_plain <= 3)%nat.
Proof.
  apply (struct_to_plain_keys sample.env sample.dup_heap sample.dup_value
                              sample.dup_plain
                              [IString "version"; IString "data"; IString "version"]);
    reflexivity.
Defined.

Lemma struct_to_plain_last_witness :
  assoc_get "version" sample.dup_plain
  = Some (IDecodeValue (mkDecodeValue (JQNumber (NumBig 1)) (Some 8%nat) false)).
Proof.
  apply (struct_to_plain_last sample.env sample.dup_heap sample.dup_value "version"
                              [Some 2; Some 3]%nat [] (Some 8%nat)
                              (sample.scalar_node 1 "version" 80 8 (GoUint64 1)));
    try reflexivity.
  constructor.
Defined.

Lemma adapted_is_decode_value_witness :
  _isDecodeValue
    (IBufferRange
       (mkBufferRange (bytes_bits [0xBB; 0xCC; 0xDD; 0xEE; 0x00]) (mkRange 0 40) 8))
  = false <->
  exists sc,
    V (sample.scalar_node 1 "blob" 40 40 (GoBytes [0xBB; 0xCC; 0xDD; 0xEE; 0x00]))
    = VScalar sc /\
    ((exists bs, Scalar_Value sample.env sc = GoBytes bs) \/
     (exists b err, Scalar_Value sample.env sc = GoBuffer b /\
                    copyString sample.env b = inr err)).
Proof.
  apply (adapted_is_decode_value sample.env sample.tree_heap (Some 4%nat)); reflexivity.
Defined.

Lemma decode_unresolved_witness :
  decode_result sample.env INil (IString "avc_nalu") INil sample.tree_heap
  = Ok (IError (otherError "not a buffer")) /\
  decode_heap sample.env INil (IString "avc_nalu") INil sample.tree_heap
  = sample.tree_heap /\
  decode_calls (decode_log sample.env INil (IString "avc_nalu") INil sample.tree_heap)
  = [].
Proof.
  apply (proj1 (decode_unresolved sample.env INil (IString "avc_nalu") INil
                                  sample.tree_heap)).
  reflexivity.
Defined.

Lemma decode_progress_bracket_witness :
  exists middle,
    decode_log sample.env (IOpenFile sample.some_file) (IString "avc_nalu")
               sample.progress_opts sample.tree_heap =
    (SetProgressFn sample.some_file (Some "report") :: middle ++
     [SetProgressFn sample.some_file None; EvalProgress INil "report"])%list /\
    Forall (fun e => is_progress_event e = false) middle.
Proof.
  apply (proj1 (decode_progress_bracket sample.env (IOpenFile sample.some_file)
                  (IString "avc_nalu") sample.progress_opts sample.tree_heap)
               sample.some_file eq_refl).
  discriminate.
Defined.

Lemma decode_outcome_witness :
  decode_heap sample.env
              (IBufferRange (mkBufferRange sample.s1_input (mkRange 0 120) 8))
              (IString "avc_nalu") INil ∅
  = sample.tree_heap.
Proof.
  apply (decode_outcome sample.env
           (IBufferRange (mkBufferRange sample.s1_input (mkRange 0 120) 8))
           (IString "avc_nalu") INil ∅ sample.tree_heap
           (mkBufferRange sample.s1_input (mkRange 0 120) 8)
           "avc_nalu" [sample.nalu_header] (Some 0%nat) None); reflexivity.
Defined.

Lemma extkeys_listed_and_answered_witness :
  ~ In "_error" ["_start"; "_stop"; "_len"; "_name"; "_root"; "_buffer_root";
                 "_format_root"; "_parent"; "_actual"; "_sym"; "_description";
                 "_path"; "_bits"; "_bytes"; "_unknown"] /\
  decodeValueBase_JQValueKey sample.env sample.tree_heap (Some 2%nat) "_error" = Ok INil.
Proof.
  destruct (extkeys_listed_and_answered sample.env sample.tree_heap (Some 2%nat)
              (sample.scalar_node 1 "version" 16 8 (GoUint64 0)) _ eq_refl eq_refl)
    as (_ & _ & H).
  destruct (H _ eq_refl) as (A & _ & B & _). exact (conj A B).
Defined.

Lemma parent_key_witness :
  decodeValueBase_JQValueKey sample.env sample.tree_heap (Some 1%nat) "_parent"
  = makeDecodeValue sample.env sample.tree_heap (Some 0%nat).
Proof.
  apply (proj2 (parent_key sample.env sample.tree_heap (Some 1%nat) sample.hdr_node
                           eq_refl
                           (fun a H => ltac:(injection H as <-; eexists; reflexivity)))).
  reflexivity.
Defined.

Lemma compound_metadata_witness :
  decodeValueBase_JQValueKey sample.env sample.tree_heap (Some 1%nat) "_actual" = Ok INil /\
  decodeValueBase_JQValueKey sample.env sample.tree_heap (Some 1%nat) "_sym" = Ok INil /\
  decodeValueBase_JQValueKey sample.env sample.tree_heap (Some 1%nat) "_unknown"
  = Ok (IBool false).
Proof.
  apply (proj1 (compound_metadata sample.env sample.tree_heap (Some 1%nat)
                                  sample.hdr_node eq_refl) sample.hdr_compound).
  reflexivity.
Defined.

Lemma bytes_is_buffer_view_witness :
  exists bv,
    ToBufferView sample.env sample.tree_heap (Some 1%nat) = Ok bv /\
    decodeValueBase_JQValueKey sample.env sample.tree_heap (Some 1%nat) "_bytes"
    = Ok (IBufferRange bv) /\
    decodeValueBase_JQValueKey sample.env sample.tree_heap (Some 1%nat) "_bits"
    = Ok (IBufferRange (mkBufferRange (brBuf bv) (brRange bv) 1)) /\
    brUnit bv = 8.
Proof.
  apply (bytes_is_buffer_view sample.env sample.tree_heap (Some 1%nat) sample.hdr_node);
    reflexivity.
Defined.

Lemma toValue_ok_witness :
  toValue sample.env sample.tree_heap (fun _ => sample.bits_options) (IString "x")
  = Ok (IString "x", true).
Proof.
  apply (proj1 (toValue_ok sample.env sample.tree_heap (fun _ => sample.bits_options)
                           (IString "x"))).
  reflexivity.
Defined.
